(** * The feast registry: cache controller, CRUD engine, diff and projection

    A shallow embedding of [sdk/python/feast/registry.py].  The registry
    keeps one serialized snapshot ([RegistryProto]) in a backend store and
    an in-process cache of it; every operation is a function of the
    registry state that returns an outcome (a value or a raised exception)
    together with the new state. *)

From stdpp Require Import base option list gmap strings sorting.
From Stdlib Require Import ZArith Lia.

Open Scope string_scope.
Open Scope list_scope.
Open Scope Z_scope.

(** ** Data model *)

Definition REGISTRY_SCHEMA_VERSION : string := "1".

(** One element of a repeated field of the registry message: the [spec]
    sub-message (name, project and the remaining fields, kept as an ordered
    field/value list) and the [meta] sub-message. *)
Record ObjectProto := {
  spec_name : string;
  spec_project : string;
  spec_body : list (string * string);
  meta_created_timestamp : option Z;
  meta_materialization_intervals : list (Z * Z)
}.

Global Instance ObjectProto_eq_dec : EqDecision ObjectProto.
Proof. solve_decision. Defined.

(** The registry message. *)
Record RegistryProto := {
  registry_schema_version : string;
  entities : list ObjectProto;
  feature_views : list ObjectProto;
  feature_tables : list ObjectProto;
  on_demand_feature_views : list ObjectProto;
  request_feature_views : list ObjectProto;
  feature_services : list ObjectProto;
  infra : list (string * string)
}.

Global Instance RegistryProto_eq_dec : EqDecision RegistryProto.
Proof. solve_decision. Defined.

(** The three classes of feature view, and with them the three proto
    classes ([proto_class] of a feature view is the message class of the
    collection that stores it). *)
Inductive FvClass := FeatureView | OnDemandFeatureView | RequestFeatureView.

Global Instance FvClass_eq_dec : EqDecision FvClass.
Proof. solve_decision. Defined.

(** Modelled from the spec: the Python-side catalog objects ([Entity],
    [FeatureService] and the feature view classes live in modules that are
    not part of this development).  An object carries a name, a
    specification payload and, for feature views, a created timestamp and
    the ordered list of materialization intervals; it has no project of its
    own, the registry stamps the project on the message. *)
Record Fco := {
  name : string;
  body : list (string * string);
  created_timestamp : option Z;
  materialization_intervals : list (Z * Z)
}.

Global Instance Fco_eq_dec : EqDecision Fco.
Proof. solve_decision. Defined.

Record BaseFeatureView := {
  fv_class : FvClass;
  fv_fco : Fco
}.

Global Instance BaseFeatureView_eq_dec : EqDecision BaseFeatureView.
Proof. solve_decision. Defined.

(** Modelled from the spec: [to_proto] and [from_proto] of the catalog
    objects, a field-for-field copy; [to_proto] leaves the project unset. *)
Definition to_proto (o : Fco) : ObjectProto :=
  {| spec_name := name o;
     spec_project := "";
     spec_body := body o;
     meta_created_timestamp := created_timestamp o;
     meta_materialization_intervals := materialization_intervals o |}.

Definition from_proto (p : ObjectProto) : Fco :=
  {| name := spec_name p;
     body := spec_body p;
     created_timestamp := meta_created_timestamp p;
     materialization_intervals := meta_materialization_intervals p |}.

(** [proto.spec.project = project] *)
Definition set_project (project : string) (p : ObjectProto) : ObjectProto :=
  {| spec_name := spec_name p;
     spec_project := project;
     spec_body := spec_body p;
     meta_created_timestamp := meta_created_timestamp p;
     meta_materialization_intervals := meta_materialization_intervals p |}.

(** ** Exceptions and the state-and-exception monad *)

Inductive exn :=
| FileNotFoundError
| AssertionError
| AttributeError
| IndexError
| ValueError
| EntityNotFoundException (n project : string)
| FeatureViewNotFoundException (n project : string)
| FeatureServiceNotFoundException (n project : string)
| OnDemandFeatureViewNotFoundException (n project : string)
| ConflictingFeatureViewNames (n : string).

Global Instance exn_eq_dec : EqDecision exn.
Proof. solve_decision. Defined.

Inductive outcome (A : Type) :=
| Return (a : A)
| Raise (e : exn).
Arguments Return {A} a.
Arguments Raise {A} e.

(** Modelled from the spec: the backend store (section 4.1), which loads,
    persists or erases one whole snapshot.  [stored = None] is the state in
    which [load] fails with NotFound; [load_calls] counts the calls of
    [get_registry_proto] made so far. *)
Record RegistryStore := {
  stored : option RegistryProto;
  load_calls : nat
}.

Record Registry := {
  cached_registry_proto : option RegistryProto;
  cached_registry_proto_created : option Z;
  cached_registry_proto_ttl : Z;
  registry_store : RegistryStore
}.

Definition M (A : Type) : Type := Registry → outcome A * Registry.

Definition ret {A} (a : A) : M A := λ r, (Return a, r).
Definition raise {A} (e : exn) : M A := λ r, (Raise e, r).
Definition bind {A B} (m : M A) (k : A → M B) : M B :=
  λ r, match m r with
       | (Return a, r') => k a r'
       | (Raise e, r') => (Raise e, r')
       end.
Definition get_self : M Registry := λ r, (Return r, r).

(** [try: m except FileNotFoundError: h] *)
Definition try_except_FileNotFoundError {A} (m : M A) (h : M A) : M A :=
  λ r, match m r with
       | (Raise FileNotFoundError, r') => h r'
       | res => res
       end.

Notation "'let*' x ':=' m 'in' k" := (bind m (λ x, k))
  (at level 10, x name, m at level 100, k at level 200).

Definition when (b : bool) (m : M unit) : M unit := if b then m else ret tt.

(** [assert self.cached_registry_proto] *)
Definition assert_cached : M RegistryProto :=
  let* r := get_self in
  match cached_registry_proto r with
  | Some p => ret p
  | None => raise AssertionError
  end.

(** ** Backend store and cache controller *)

(** The store's [get_registry_proto] and [update_registry_proto]. *)
Definition store_get_registry_proto : M RegistryProto :=
  λ r,
    let st := registry_store r in
    let r' := {| cached_registry_proto := cached_registry_proto r;
                 cached_registry_proto_created := cached_registry_proto_created r;
                 cached_registry_proto_ttl := cached_registry_proto_ttl r;
                 registry_store := {| stored := stored st;
                                      load_calls := S (load_calls st) |} |} in
    match stored st with
    | Some p => (Return p, r')
    | None => (Raise FileNotFoundError, r')
    end.

Definition store_update_registry_proto (p : RegistryProto) : M unit :=
  λ r,
    (Return tt,
     {| cached_registry_proto := cached_registry_proto r;
        cached_registry_proto_created := cached_registry_proto_created r;
        cached_registry_proto_ttl := cached_registry_proto_ttl r;
        registry_store := {| stored := Some p;
                             load_calls := load_calls (registry_store r) |} |}).

(** [self.cached_registry_proto = p; self.cached_registry_proto_created = now] *)
Definition set_cache (p : RegistryProto) (now : Z) : M unit :=
  λ r,
    (Return tt,
     {| cached_registry_proto := Some p;
        cached_registry_proto_created := Some now;
        cached_registry_proto_ttl := cached_registry_proto_ttl r;
        registry_store := registry_store r |}).

(** [self.cached_registry_proto.<collection> = ...]: the in-place mutation
    of the cached message. *)
Definition modify_cached (f : RegistryProto → RegistryProto) : M unit :=
  λ r,
    (Return tt,
     {| cached_registry_proto := f <$> cached_registry_proto r;
        cached_registry_proto_created := cached_registry_proto_created r;
        cached_registry_proto_ttl := cached_registry_proto_ttl r;
        registry_store := registry_store r |}).

(** The expiry test of [_get_registry_proto]; times and the TTL are in
    seconds, [now] is the reading of [datetime.now()]. *)
Definition expired (now : Z) (r : Registry) : bool :=
  match cached_registry_proto r, cached_registry_proto_created r with
  | Some _, Some created =>
      (0 <? cached_registry_proto_ttl r) &&
      (created + cached_registry_proto_ttl r <? now)
  | _, _ => true
  end.

(** Every operation takes the reading [now] of the clock; the readings of
    [datetime.now()] within one call are taken to be equal. *)
Definition _get_registry_proto (now : Z) (allow_cache : bool) : M RegistryProto :=
  let* r := get_self in
  if allow_cache && negb (expired now r) then
    assert_cached
  else
    let* registry_proto := store_get_registry_proto in
    let* _ := set_cache registry_proto now in
    ret registry_proto.

(** [RegistryProto()] with [registry_schema_version] set to
    [REGISTRY_SCHEMA_VERSION]. *)
Definition stamped_empty_registry_proto : RegistryProto :=
  {| registry_schema_version := REGISTRY_SCHEMA_VERSION;
     entities := []; feature_views := []; feature_tables := [];
     on_demand_feature_views := []; request_feature_views := [];
     feature_services := []; infra := [] |}.

Definition _prepare_registry_for_changes (now : Z) : M (option RegistryProto) :=
  let* _ := try_except_FileNotFoundError
              (let* _ := _get_registry_proto now true in ret tt)
              (set_cache stamped_empty_registry_proto now) in
  let* r := get_self in
  ret (cached_registry_proto r).

Definition _initialize_registry (now : Z) : M unit :=
  try_except_FileNotFoundError
    (let* _ := _get_registry_proto now false in ret tt)
    (store_update_registry_proto stamped_empty_registry_proto).

Definition commit : M unit :=
  let* r := get_self in
  match cached_registry_proto r with
  | Some p => store_update_registry_proto p
  | None => ret tt
  end.


(** The state after a call of the store's [get_registry_proto]. *)
Definition count_load (r : Registry) : Registry :=
  {| cached_registry_proto := cached_registry_proto r;
     cached_registry_proto_created := cached_registry_proto_created r;
     cached_registry_proto_ttl := cached_registry_proto_ttl r;
     registry_store := {| stored := stored (registry_store r);
                          load_calls := S (load_calls (registry_store r)) |} |}.

(** The state in which the cache holds [p], stamped [now]. *)
Definition with_cache (p : RegistryProto) (now : Z) (r : Registry) : Registry :=
  {| cached_registry_proto := Some p;
     cached_registry_proto_created := Some now;
     cached_registry_proto_ttl := cached_registry_proto_ttl r;
     registry_store := registry_store r |}.

(** The state in which the backend store holds [p]. *)
Definition with_stored (p : RegistryProto) (r : Registry) : Registry :=
  {| cached_registry_proto := cached_registry_proto r;
     cached_registry_proto_created := cached_registry_proto_created r;
     cached_registry_proto_ttl := cached_registry_proto_ttl r;
     registry_store := {| stored := Some p;
                          load_calls := load_calls (registry_store r) |} |}.

(** The state in which the cached message has been mutated into [p]; the
    creation time of the cache stays. *)
Definition with_snapshot (p : RegistryProto) (r : Registry) : Registry :=
  {| cached_registry_proto := Some p;
     cached_registry_proto_created := cached_registry_proto_created r;
     cached_registry_proto_ttl := cached_registry_proto_ttl r;
     registry_store := registry_store r |}.

(** The state at the end of a mutating operation that turned the working
    snapshot into [p]: the cache holds [p], and so does the store when the
    operation commits. *)
Definition finish (do_commit : bool) (p : RegistryProto) (r : Registry) : Registry :=
  if do_commit then with_stored p (with_snapshot p r) else with_snapshot p r.


(** ** Collections *)

(** [p.spec.name == n and p.spec.project == project] *)
Definition has_key (n project : string) (p : ObjectProto) : Prop :=
  spec_name p = n ∧ spec_project p = project.

Global Instance has_key_dec n project p : Decision (has_key n project p).
Proof. unfold has_key. apply _. Defined.

(** A scan that deletes the first matching element and leaves the loop
    ([del l[idx]; break], or [del l[idx]; ...; return]). *)
Definition del_first (n project : string) (l : list ObjectProto) : list ObjectProto :=
  match list_find (has_key n project) l with
  | Some (idx, _) => delete idx l
  | None => l
  end.

(** A scan that deletes every matching element it visits and goes on
    ([del l[idx]] without [break]): the iteration is by position, so the
    element that moves into the freed position is not visited. *)
Fixpoint del_visited (n project : string) (l : list ObjectProto) : list ObjectProto :=
  match l with
  | [] => []
  | x :: rest =>
      if decide (has_key n project x) then
        match rest with
        | [] => []
        | y :: rest' => y :: del_visited n project rest'
        end
      else x :: del_visited n project rest
  end.

Definition set_entities (l : list ObjectProto) (s : RegistryProto) : RegistryProto :=
  {| registry_schema_version := registry_schema_version s;
     entities := l; feature_views := feature_views s;
     feature_tables := feature_tables s;
     on_demand_feature_views := on_demand_feature_views s;
     request_feature_views := request_feature_views s;
     feature_services := feature_services s; infra := infra s |}.

Definition set_feature_views (l : list ObjectProto) (s : RegistryProto) : RegistryProto :=
  {| registry_schema_version := registry_schema_version s;
     entities := entities s; feature_views := l;
     feature_tables := feature_tables s;
     on_demand_feature_views := on_demand_feature_views s;
     request_feature_views := request_feature_views s;
     feature_services := feature_services s; infra := infra s |}.

Definition set_on_demand_feature_views (l : list ObjectProto) (s : RegistryProto) : RegistryProto :=
  {| registry_schema_version := registry_schema_version s;
     entities := entities s; feature_views := feature_views s;
     feature_tables := feature_tables s;
     on_demand_feature_views := l;
     request_feature_views := request_feature_views s;
     feature_services := feature_services s; infra := infra s |}.

Definition set_request_feature_views (l : list ObjectProto) (s : RegistryProto) : RegistryProto :=
  {| registry_schema_version := registry_schema_version s;
     entities := entities s; feature_views := feature_views s;
     feature_tables := feature_tables s;
     on_demand_feature_views := on_demand_feature_views s;
     request_feature_views := l;
     feature_services := feature_services s; infra := infra s |}.

Definition set_feature_services (l : list ObjectProto) (s : RegistryProto) : RegistryProto :=
  {| registry_schema_version := registry_schema_version s;
     entities := entities s; feature_views := feature_views s;
     feature_tables := feature_tables s;
     on_demand_feature_views := on_demand_feature_views s;
     request_feature_views := request_feature_views s;
     feature_services := l; infra := infra s |}.

(** [existing_feature_views_of_same_type]: the collection that stores the
    feature views of a class. *)
Definition views_of (c : FvClass) (s : RegistryProto) : list ObjectProto :=
  match c with
  | FeatureView => feature_views s
  | OnDemandFeatureView => on_demand_feature_views s
  | RequestFeatureView => request_feature_views s
  end.

Definition set_views_of (c : FvClass) (l : list ObjectProto) (s : RegistryProto) : RegistryProto :=
  match c with
  | FeatureView => set_feature_views l s
  | OnDemandFeatureView => set_on_demand_feature_views l s
  | RequestFeatureView => set_request_feature_views l s
  end.

(** [{fv.spec.name: fv for fv in l}]: a later element replaces an earlier
    one of the same name.  Each message is kept with its class. *)
Definition names_to_fvs (c : FvClass) (l : list ObjectProto) : gmap string (FvClass * ObjectProto) :=
  foldl (λ m fv, <[spec_name fv := (c, fv)]> m) ∅ l.

(** [{**odfvs, **fvs, **request_fvs}]: on a shared name the rightmost
    dictionary wins. *)
Definition _existing_feature_view_names_to_fvs (s : RegistryProto) : gmap string (FvClass * ObjectProto) :=
  let odfvs := names_to_fvs OnDemandFeatureView (on_demand_feature_views s) in
  let fvs := names_to_fvs FeatureView (feature_views s) in
  let request_fvs := names_to_fvs RequestFeatureView (request_feature_views s) in
  request_fvs ∪ (fvs ∪ odfvs).

(** [isinstance(name_to_fv_protos.get(name), feature_view.proto_class)] is
    the test that the message found comes from the collection of the
    incoming view's class. *)
Definition _check_conflicting_feature_view_names (feature_view : BaseFeatureView) : M unit :=
  let* s := assert_cached in
  let name_to_fv_protos := _existing_feature_view_names_to_fvs s in
  match name_to_fv_protos !! name (fv_fco feature_view) with
  | Some (c, _) =>
      if decide (c = fv_class feature_view) then ret tt
      else raise (ConflictingFeatureViewNames (name (fv_fco feature_view)))
  | None => ret tt
  end.

(** The check passes on the working snapshot [s]: the name is free, or the
    name table maps it to a message of the incoming view's proto class. *)
Definition no_conflict (feature_view : BaseFeatureView) (s : RegistryProto) : Prop :=
  match _existing_feature_view_names_to_fvs s !! name (fv_fco feature_view) with
  | Some (c, _) => c = fv_class feature_view
  | None => True
  end.



(** ** Diff engine *)

Inductive TransitionType := CREATE | DELETE | UPDATE.

Record PropertyDiff := {
  property_name : string;
  val_existing : string;
  val_declared : string
}.

Record FcoDiff := {
  fco_name : string;
  fco_type : string;
  current_fco : option ObjectProto;
  new_fco : option ObjectProto;
  fco_property_diffs : list PropertyDiff;
  transition_type : TransitionType
}.

(** Modelled from the spec: [RegistryDiff] and its [add_fco_diff] (module
    [feast.diff.FcoDiff] is not part of this development).  A change set is
    the ordered sequence of the records added to it; what [diff_between]
    yields for a pair without differing field ([None]) is no record and is
    left out of it. *)
Definition RegistryDiff : Type := list FcoDiff.

Definition add_fco_diff (d : option FcoDiff) (diff : RegistryDiff) : RegistryDiff :=
  match d with
  | Some d => diff ++ [d]
  | None => diff
  end.

(** Modelled from the spec: [tag_proto_objects_for_keep_delete_add]
    (section 4.5, step 1).  Objects are matched on their name: those present
    only in the proposed collection are to add, those present only in the
    current one are to delete, and the proposed objects whose name is in
    both are to keep. *)
Definition tag_proto_objects_for_keep_delete_add
    (existing_objs desired_objs : list ObjectProto)
    : list ObjectProto * list ObjectProto * list ObjectProto :=
  let existing_obj_names := spec_name <$> existing_objs in
  let desired_obj_names := spec_name <$> desired_objs in
  let objs_to_add := filter (λ e, spec_name e ∉ existing_obj_names) desired_objs in
  let objs_to_keep := filter (λ e, spec_name e ∈ existing_obj_names) desired_objs in
  let objs_to_delete := filter (λ e, spec_name e ∉ desired_obj_names) existing_objs in
  (objs_to_keep, objs_to_delete, objs_to_add).

(** The fields of the [spec] sub-message, in declaration order. *)
Definition spec_fields (p : ObjectProto) : list (string * string) :=
  ("name", spec_name p) :: ("project", spec_project p) :: spec_body p.

(** Modelled from the spec: the structural field comparison of a matched
    pair (section 4.5, step 2).  The two messages are of one class, so that
    their fields correspond by position; there is one entry per field whose
    values differ. *)
Definition property_diffs (current new : ObjectProto) : list PropertyDiff :=
  omap (λ fs : (string * string) * (string * string),
          if decide (fs.1.2 = fs.2.2) then None
          else Some {| property_name := fs.1.1;
                       val_existing := fs.1.2;
                       val_declared := fs.2.2 |})
       (zip (spec_fields current) (spec_fields new)).

(** Modelled from the spec: [diff_between] of a matched pair: nothing when
    no field differs, otherwise an UPDATE record that lists the differing
    fields. *)
Definition diff_between (current new : ObjectProto) (object_type : string) : option FcoDiff :=
  match property_diffs current new with
  | [] => None
  | diffs =>
      Some {| fco_name := spec_name new;
              fco_type := object_type;
              current_fco := Some current;
              new_fco := Some new;
              fco_property_diffs := diffs;
              transition_type := UPDATE |}
  end.

(** The repeated fields compared by [Registry.diff_between], in the order
    of its loop, each with its entry of [attribute_to_object_type_str]. *)
Definition object_types : list ((RegistryProto → list ObjectProto) * string) :=
  [ (entities, "entity");
    (feature_views, "feature view");
    (feature_tables, "feature table");
    (on_demand_feature_views, "on demand feature view");
    (request_feature_views, "request feature view");
    (feature_services, "feature service") ].

(** The body of the loop over [objects_to_keep]. *)
Definition diff_kept (current_objs : list ObjectProto) (type_str : string)
    (acc : outcome RegistryDiff) (e : ObjectProto) : outcome RegistryDiff :=
  match acc with
  | Raise ex => Raise ex
  | Return diff =>
      match head (filter (λ _e, spec_name _e = spec_name e) current_objs) with
      | None => Raise IndexError
      | Some current_obj_proto =>
          Return (add_fco_diff (diff_between current_obj_proto e type_str) diff)
      end
  end.

(** The body of the loop over the object types. *)
Definition diff_object_type (current_registry new_registry : RegistryProto)
    (acc : outcome RegistryDiff)
    (object_type : (RegistryProto → list ObjectProto) * string)
    : outcome RegistryDiff :=
  match acc with
  | Raise ex => Raise ex
  | Return diff =>
      let '(objects_to_keep, objects_to_delete, objects_to_add) :=
        tag_proto_objects_for_keep_delete_add
          (object_type.1 current_registry) (object_type.1 new_registry) in
      let diff :=
        foldl (λ diff e,
                 add_fco_diff (Some {| fco_name := spec_name e;
                                       fco_type := object_type.2;
                                       current_fco := None;
                                       new_fco := Some e;
                                       fco_property_diffs := [];
                                       transition_type := CREATE |}) diff)
              diff objects_to_add in
      let diff :=
        foldl (λ diff e,
                 add_fco_diff (Some {| fco_name := spec_name e;
                                       fco_type := object_type.2;
                                       current_fco := Some e;
                                       new_fco := None;
                                       fco_property_diffs := [];
                                       transition_type := DELETE |}) diff)
              diff objects_to_delete in
      foldl (diff_kept (object_type.1 current_registry) object_type.2)
            (Return diff) objects_to_keep
  end.

Definition Registry_diff_between (current_registry new_registry : RegistryProto)
    : outcome RegistryDiff :=
  foldl (diff_object_type current_registry new_registry) (Return []) object_types.


(** ** Sample objects and registries *)

Definition sample_fco (n kind : string) : Fco :=
  {| name := n; body := [("kind", kind)];
     created_timestamp := None; materialization_intervals := [] |}.

Definition sample_view (c : FvClass) (n kind : string) : BaseFeatureView :=
  {| fv_class := c; fv_fco := sample_fco n kind |}.

Definition sample_proto (n project kind : string) : ObjectProto :=
  set_project project (to_proto (sample_fco n kind)).

(** A registry whose cache never expires (TTL 0) and holds [s], as does
    its store. *)
Definition sample_registry (s : RegistryProto) : Registry :=
  {| cached_registry_proto := Some s;
     cached_registry_proto_created := Some 0;
     cached_registry_proto_ttl := 0;
     registry_store := {| stored := Some s; load_calls := 1 |} |}.


(** A registry with nothing cached and an empty store. *)
Definition blank_registry : Registry :=
  {| cached_registry_proto := None;
     cached_registry_proto_created := None;
     cached_registry_proto_ttl := 0;
     registry_store := {| stored := None; load_calls := 0 |} |}.


Definition sample_snapshot (es fvs odfvs rfvs fss : list ObjectProto) : RegistryProto :=
  {| registry_schema_version := REGISTRY_SCHEMA_VERSION;
     entities := es; feature_views := fvs; feature_tables := [];
     on_demand_feature_views := odfvs; request_feature_views := rfvs;
     feature_services := fss; infra := [] |}.

Definition always_valid {A} (_ : A) : bool := true.

(** An equality of feature views that compares class, name and
    specification payload. *)
Definition same_definition (a b : BaseFeatureView) : bool :=
  bool_decide (fv_class a = fv_class b ∧ name (fv_fco a) = name (fv_fco b) ∧
               body (fv_fco a) = body (fv_fco b)).

(** ** CRUD engine, materialization tracker and projection *)

Section Registry.

(** What the registry takes from the catalog objects and from the protobuf
    library, whose code is outside this development: the validity checks
    [Entity.is_valid] and [BaseFeatureView.ensure_valid] (they raise on an
    invalid object), the equality [==] of feature views, and
    [MessageToDict]. *)
Variable is_valid : Fco → bool.
Variable ensure_valid : BaseFeatureView → bool.
Variable fv_eqb : BaseFeatureView → BaseFeatureView → bool.
Variable D : Type.
Variable MessageToDict : ObjectProto → D.

Definition check (valid : bool) : M unit :=
  if valid then ret tt else raise ValueError.

Definition apply_entity (now : Z) (entity : Fco) (project : string) (do_commit : bool) : M unit :=
  let* _ := check (is_valid entity) in
  let entity_proto := set_project project (to_proto entity) in
  let* _ := _prepare_registry_for_changes now in
  let* _ := assert_cached in
  let* _ := modify_cached (λ s,
              set_entities (del_first (spec_name entity_proto) project (entities s)) s) in
  let* _ := modify_cached (λ s, set_entities (entities s ++ [entity_proto]) s) in
  when do_commit commit.

Definition list_entities (now : Z) (project : string) (allow_cache : bool) : M (list Fco) :=
  let* registry_proto := _get_registry_proto now allow_cache in
  ret (from_proto <$> filter (λ p, spec_project p = project) (entities registry_proto)).

Definition apply_feature_service (now : Z) (feature_service : Fco) (project : string)
    (do_commit : bool) : M unit :=
  let feature_service_proto := set_project project (to_proto feature_service) in
  let* registry := _prepare_registry_for_changes now in
  match registry with
  | None => raise AttributeError
  | Some _ =>
      let* _ := modify_cached (λ s,
                  set_feature_services
                    (del_visited (spec_name feature_service_proto) project
                                 (feature_services s)) s) in
      let* _ := modify_cached (λ s,
                  set_feature_services (feature_services s ++ [feature_service_proto]) s) in
      when do_commit commit
  end.



Definition get_entity (now : Z) (n project : string) (allow_cache : bool) : M Fco :=
  let* registry_proto := _get_registry_proto now allow_cache in
  match list_find (has_key n project) (entities registry_proto) with
  | Some (_, entity_proto) => ret (from_proto entity_proto)
  | None => raise (EntityNotFoundException n project)
  end.

(** [if not feature_view.created_timestamp: feature_view.created_timestamp = now] *)
Definition stamp_created (now : Z) (feature_view : BaseFeatureView) : BaseFeatureView :=
  match created_timestamp (fv_fco feature_view) with
  | Some _ => feature_view
  | None =>
      {| fv_class := fv_class feature_view;
         fv_fco := {| name := name (fv_fco feature_view);
                      body := body (fv_fco feature_view);
                      created_timestamp := Some now;
                      materialization_intervals :=
                        materialization_intervals (fv_fco feature_view) |} |}
  end.

Definition apply_feature_view (now : Z) (feature_view : BaseFeatureView) (project : string)
    (do_commit : bool) : M unit :=
  let* _ := check (ensure_valid feature_view) in
  let feature_view := stamp_created now feature_view in
  let feature_view_proto := set_project project (to_proto (fv_fco feature_view)) in
  let* _ := _prepare_registry_for_changes now in
  let* _ := assert_cached in
  let* _ := _check_conflicting_feature_view_names feature_view in
  let c := fv_class feature_view in
  let append_and_commit :=
    let* _ := modify_cached (λ s, set_views_of c (views_of c s ++ [feature_view_proto]) s) in
    when do_commit commit in
  let* s := assert_cached in
  match list_find (has_key (spec_name feature_view_proto) project) (views_of c s) with
  | Some (idx, existing_feature_view_proto) =>
      if fv_eqb {| fv_class := c; fv_fco := from_proto existing_feature_view_proto |}
                feature_view
      then ret tt
      else
        let* _ := modify_cached (λ s, set_views_of c (delete idx (views_of c s)) s) in
        append_and_commit
  | None => append_and_commit
  end.



(** [existing_feature_view.materialization_intervals.append((start, end))] *)
Definition append_interval (start_date end_date : Z) (o : Fco) : Fco :=
  {| name := name o;
     body := body o;
     created_timestamp := created_timestamp o;
     materialization_intervals := materialization_intervals o ++ [(start_date, end_date)] |}.

Definition apply_materialization (now : Z) (feature_view : Fco) (project : string)
    (start_date end_date : Z) (do_commit : bool) : M unit :=
  let* _ := _prepare_registry_for_changes now in
  let* s := assert_cached in
  match list_find (has_key (name feature_view) project) (feature_views s) with
  | Some (idx, existing_feature_view_proto) =>
      let existing_feature_view := from_proto existing_feature_view_proto in
      let existing_feature_view := append_interval start_date end_date existing_feature_view in
      let feature_view_proto := set_project project (to_proto existing_feature_view) in
      let* _ := modify_cached (λ s, set_feature_views (delete idx (feature_views s)) s) in
      let* _ := modify_cached (λ s, set_feature_views (feature_views s ++ [feature_view_proto]) s) in
      when do_commit commit
  | None => raise (FeatureViewNotFoundException (name feature_view) project)
  end.



Definition get_feature_view (now : Z) (n project : string) (allow_cache : bool) : M Fco :=
  let* registry_proto := _get_registry_proto now allow_cache in
  match list_find (has_key n project) (feature_views registry_proto) with
  | Some (_, feature_view_proto) => ret (from_proto feature_view_proto)
  | None => raise (FeatureViewNotFoundException n project)
  end.

Definition delete_feature_service (now : Z) (n project : string) (do_commit : bool) : M unit :=
  let* _ := _prepare_registry_for_changes now in
  let* s := assert_cached in
  match list_find (has_key n project) (feature_services s) with
  | Some (idx, _) =>
      let* _ := modify_cached (λ s, set_feature_services (delete idx (feature_services s)) s) in
      when do_commit commit
  | None => raise (FeatureServiceNotFoundException n project)
  end.

Definition delete_feature_view (now : Z) (n project : string) (do_commit : bool) : M unit :=
  let* _ := _prepare_registry_for_changes now in
  let* s := assert_cached in
  match list_find (has_key n project) (feature_views s) with
  | Some (idx, _) =>
      let* _ := modify_cached (λ s, set_feature_views (delete idx (feature_views s)) s) in
      when do_commit commit
  | None =>
      match list_find (has_key n project) (request_feature_views s) with
      | Some (idx, _) =>
          let* _ := modify_cached (λ s,
                      set_request_feature_views (delete idx (request_feature_views s)) s) in
          when do_commit commit
      | None => raise (FeatureViewNotFoundException n project)
      end
  end.

Definition delete_entity (now : Z) (n project : string) (do_commit : bool) : M unit :=
  let* _ := _prepare_registry_for_changes now in
  let* s := assert_cached in
  match list_find (has_key n project) (entities s) with
  | Some (idx, _) =>
      let* _ := modify_cached (λ s, set_entities (delete idx (entities s)) s) in
      when do_commit commit
  | None => raise (EntityNotFoundException n project)
  end.







(** ** Operation sequences and the uniqueness invariant *)

Inductive op :=
| ApplyEntity (now : Z) (entity : Fco) (project : string) (do_commit : bool)
| ApplyFeatureService (now : Z) (feature_service : Fco) (project : string) (do_commit : bool)
| ApplyFeatureView (now : Z) (feature_view : BaseFeatureView) (project : string) (do_commit : bool)
| ApplyMaterialization (now : Z) (feature_view : Fco) (project : string)
    (start_date end_date : Z) (do_commit : bool)
| DeleteEntity (now : Z) (n project : string) (do_commit : bool)
| DeleteFeatureView (now : Z) (n project : string) (do_commit : bool)
| DeleteFeatureService (now : Z) (n project : string) (do_commit : bool).

Definition run_op (o : op) : M unit :=
  match o with
  | ApplyEntity now e p c => apply_entity now e p c
  | ApplyFeatureService now fs p c => apply_feature_service now fs p c
  | ApplyFeatureView now fv p c => apply_feature_view now fv p c
  | ApplyMaterialization now fv p s e c => apply_materialization now fv p s e c
  | DeleteEntity now n p c => delete_entity now n p c
  | DeleteFeatureView now n p c => delete_feature_view now n p c
  | DeleteFeatureService now n p c => delete_feature_service now n p c
  end.

(** The registry states that a sequence of operations leads to; an
    operation that raises still leaves a state behind. *)
Inductive reachable (r0 : Registry) : Registry → Prop :=
| reachable_refl : reachable r0 r0
| reachable_step r o : reachable r0 r → reachable r0 (run_op o r).2.

Definition run_ops (ops : list op) (r : Registry) : Registry :=
  foldl (λ r o, (run_op o r).2) r ops.


(** The number of entries of a collection stored under (name, project). *)
Definition count_key (n project : string) (l : list ObjectProto) : nat :=
  length (filter (has_key n project) l).

Definition unique_keys (l : list ObjectProto) : Prop :=
  ∀ n project, (count_key n project l ≤ 1)%nat.

Definition snapshot_unique (s : RegistryProto) : Prop :=
  unique_keys (entities s) ∧
  unique_keys (feature_views s) ∧
  unique_keys (on_demand_feature_views s) ∧
  unique_keys (request_feature_views s) ∧
  unique_keys (feature_services s).

(** The invariant of a registry state: the cached snapshot and the
    snapshot held by the backend store, when present, have unique keys. *)
Definition registry_unique (r : Registry) : Prop :=
  (∀ s, cached_registry_proto r = Some s → snapshot_unique s) ∧
  (∀ s, stored (registry_store r) = Some s → snapshot_unique s).

(** The names of a collection are pairwise distinct. *)
Definition distinct_names (l : list ObjectProto) : Prop :=
  NoDup (spec_name <$> l).

(** ** Infra, teardown *)




(** Modelled from the spec: the store's [teardown] erases the stored
    snapshot (section 4.1). *)
Definition store_teardown : M unit :=
  λ r,
    (Return tt,
     {| cached_registry_proto := cached_registry_proto r;
        cached_registry_proto_created := cached_registry_proto_created r;
        cached_registry_proto_ttl := cached_registry_proto_ttl r;
        registry_store := {| stored := None;
                             load_calls := load_calls (registry_store r) |} |}).

Definition teardown : M unit := store_teardown.

(** ** Persistence of the operations *)

(** The [commit] argument of an operation. *)
Definition op_commit (o : op) : bool :=
  match o with
  | ApplyEntity _ _ _ c => c
  | ApplyFeatureService _ _ _ c => c
  | ApplyFeatureView _ _ _ c => c
  | ApplyMaterialization _ _ _ _ _ c => c
  | DeleteEntity _ _ _ c => c
  | DeleteFeatureView _ _ _ c => c
  | DeleteFeatureService _ _ _ c => c
  end.

(** ** The name space shared by the feature view classes *)

(** No name is used by feature views of two classes. *)
Definition variant_names_disjoint (s : RegistryProto) : Prop :=
  ∀ c1 c2 x y,
    x ∈ views_of c1 s → y ∈ views_of c2 s → spec_name x = spec_name y → c1 = c2.

Definition registry_names_disjoint (r : Registry) : Prop :=
  (∀ s, cached_registry_proto r = Some s → variant_names_disjoint s) ∧
  (∀ s, stored (registry_store r) = Some s → variant_names_disjoint s).

(** ** Selection of the registry store class *)

Definition REGISTRY_STORE_CLASS_FOR_TYPE : gmap string string :=
  <["GCSRegistryStore" := "feast.infra.gcp.GCSRegistryStore"]>
  (<["S3RegistryStore" := "feast.infra.aws.S3RegistryStore"]>
  (<["LocalRegistryStore" := "feast.infra.local.LocalRegistryStore"]> ∅)).

Definition REGISTRY_STORE_CLASS_FOR_SCHEME : gmap string string :=
  <["gs" := "GCSRegistryStore"]>
  (<["s3" := "S3RegistryStore"]>
  (<["file" := "LocalRegistryStore"]>
  (<["" := "LocalRegistryStore"]> ∅))).

(** [s.endswith(suffix)] *)
Fixpoint endswith (s suffix : string) : bool :=
  if decide (s = suffix) then true
  else match s with
       | EmptyString => false
       | String _ s' => endswith s' suffix
       end.

(** [s.rsplit(".", 1)], when it has two parts: the text before the last
    dot and the text after it.  Without a dot it has one part. *)
Fixpoint rsplit_dot (s : string) : option (string * string) :=
  match s with
  | EmptyString => None
  | String c s' =>
      match rsplit_dot s' with
      | Some (before, after) => Some (String c before, after)
      | None => if decide (String c EmptyString = ".") then Some (EmptyString, s') else None
      end
  end.

(** What the selection of a store class comes to: the call
    [importer.get_class_from_type(module_name, class_name, "RegistryStore")],
    whose code is outside this development, or an exception. *)
Inductive store_class :=
| GetClassFromType (module_name class_name : string)
| RaiseException
| RaiseValueError.

Definition get_registry_store_class_from_type (registry_store_type : string) : store_class :=
  if negb (endswith registry_store_type "RegistryStore") then RaiseException
  else
    let registry_store_type :=
      match REGISTRY_STORE_CLASS_FOR_TYPE !! registry_store_type with
      | Some full => full
      | None => registry_store_type
      end in
    match rsplit_dot registry_store_type with
    | Some (module_name, registry_store_class_name) =>
        GetClassFromType module_name registry_store_class_name
    | None => RaiseValueError
    end.

(** [get_registry_store_class_from_scheme], from the scheme
    [urlparse(registry_path).scheme] of the registry path on. *)
Definition get_registry_store_class_from_scheme (scheme : string) : store_class :=
  match REGISTRY_STORE_CLASS_FOR_SCHEME !! scheme with
  | None => RaiseException
  | Some registry_store_type => get_registry_store_class_from_type registry_store_type
  end.

(** ** The order of the merge of the name table *)

(** The place of a class in [{**odfvs, **fvs, **request_fvs}]: on a shared
    name the class of the higher place provides the entry. *)
Definition class_rank (c : FvClass) : nat :=
  match c with
  | OnDemandFeatureView => 0
  | FeatureView => 1
  | RequestFeatureView => 2
  end.

(** ** More sample registries *)


(** A registry whose cache, loaded at time 0 with a TTL of 60 seconds,
    holds a snapshot that was not committed to its store. *)
Definition stale_registry (cached stored_snapshot : RegistryProto) : Registry :=
  {| cached_registry_proto := Some cached;
     cached_registry_proto_created := Some 0;
     cached_registry_proto_ttl := 60;
     registry_store := {| stored := Some stored_snapshot; load_calls := 1 |} |}.

(** * Properties *)

(** ** Cache controller *)

Lemma get_registry_proto_cached now r s :
  cached_registry_proto r = Some s →
  expired now r = false →
  _get_registry_proto now true r = (Return s, r).
Proof.
  intros Hc He. unfold _get_registry_proto, bind, get_self, assert_cached.
  rewrite He. simpl. unfold bind, get_self. rewrite Hc. reflexivity.
Qed.

Lemma get_registry_proto_load now allow_cache r s :
  allow_cache && negb (expired now r) = false →
  stored (registry_store r) = Some s →
  _get_registry_proto now allow_cache r = (Return s, with_cache s now (count_load r)).
Proof.
  intros Hb Hs. unfold _get_registry_proto, bind, get_self.
  rewrite Hb. destruct r as [c t ttl [st n]]. simpl in Hs. subst st. reflexivity.
Qed.

Lemma get_registry_proto_missing now allow_cache r :
  allow_cache && negb (expired now r) = false →
  stored (registry_store r) = None →
  _get_registry_proto now allow_cache r = (Raise FileNotFoundError, count_load r).
Proof.
  intros Hb Hs. unfold _get_registry_proto, bind, get_self.
  rewrite Hb. destruct r as [c t ttl [st n]]. simpl in Hs. subst st. reflexivity.
Qed.


Lemma prepare_cached now r s :
  cached_registry_proto r = Some s →
  expired now r = false →
  _prepare_registry_for_changes now r = (Return (Some s), r).
Proof.
  intros Hc He. unfold _prepare_registry_for_changes, bind, try_except_FileNotFoundError.
  rewrite (get_registry_proto_cached now r s) by done. simpl. by rewrite Hc.
Qed.

Lemma prepare_load now r s :
  expired now r = true →
  stored (registry_store r) = Some s →
  _prepare_registry_for_changes now r = (Return (Some s), with_cache s now (count_load r)).
Proof.
  intros He Hs. unfold _prepare_registry_for_changes, bind, try_except_FileNotFoundError.
  rewrite (get_registry_proto_load now true r s); [done|by rewrite He|done].
Qed.

Lemma prepare_missing now r :
  expired now r = true →
  stored (registry_store r) = None →
  _prepare_registry_for_changes now r =
    (Return (Some stamped_empty_registry_proto),
     with_cache stamped_empty_registry_proto now (count_load r)).
Proof.
  intros He Hs. unfold _prepare_registry_for_changes, bind, try_except_FileNotFoundError.
  rewrite (get_registry_proto_missing now true r); [done|by rewrite He|done].
Qed.

(** The working snapshot: what [_prepare_registry_for_changes] leaves in
    the cache.  It never raises, and the snapshot is the cached one, the
    stored one or the stamped empty one. *)
Lemma prepare_registry_for_changes_total now r :
  ∃ s r1, _prepare_registry_for_changes now r = (Return (Some s), r1) ∧
          cached_registry_proto r1 = Some s ∧
          stored (registry_store r1) = stored (registry_store r) ∧
          (cached_registry_proto r = Some s ∨ stored (registry_store r) = Some s ∨
           s = stamped_empty_registry_proto).
Proof.
  destruct (expired now r) eqn:He.
  - destruct (stored (registry_store r)) as [s|] eqn:Hs.
    + rewrite (prepare_load now r s) by done. eexists _, _. by eauto 10.
    + rewrite (prepare_missing now r) by done. eexists _, _. by eauto 10.
  - assert (∃ s, cached_registry_proto r = Some s) as [s Hc].
    { unfold expired in He. destruct (cached_registry_proto r); [eauto|done]. }
    rewrite (prepare_cached now r s) by done. eexists _, _. by eauto 10.
Qed.



(** C5: when the store holds no snapshot and the cache cannot serve,
    [_prepare_registry_for_changes] does not raise: it leaves in the cache a
    fresh empty snapshot whose schema version is "1", and a mutating
    operation ([apply_entity]) proceeds on it.  [_get_registry_proto] itself
    raises [FileNotFoundError], and so do the read operations built on it;
    [_initialize_registry] catches it and persists the empty snapshot. *)
Theorem load_not_found_is_bootstrap_only_when_preparing :
  ∀ now r,
    stored (registry_store r) = None →
    expired now r = true →
    _prepare_registry_for_changes now r =
      (Return (Some stamped_empty_registry_proto),
       with_cache stamped_empty_registry_proto now (count_load r)) ∧
    registry_schema_version stamped_empty_registry_proto = "1" ∧
    (entities stamped_empty_registry_proto, feature_views stamped_empty_registry_proto,
     feature_tables stamped_empty_registry_proto,
     on_demand_feature_views stamped_empty_registry_proto,
     request_feature_views stamped_empty_registry_proto,
     feature_services stamped_empty_registry_proto) = ([], [], [], [], [], []) ∧
    (∀ entity project,
       is_valid entity = true →
       apply_entity now entity project false r =
         (Return tt,
          with_cache (set_entities [set_project project (to_proto entity)]
                                   stamped_empty_registry_proto)
                     now (count_load r))) ∧
    (∀ allow_cache,
       _get_registry_proto now allow_cache r = (Raise FileNotFoundError, count_load r)) ∧
    (∀ n project allow_cache,
       get_entity now n project allow_cache r = (Raise FileNotFoundError, count_load r) ∧
       get_feature_view now n project allow_cache r = (Raise FileNotFoundError, count_load r) ∧
       list_entities now project allow_cache r = (Raise FileNotFoundError, count_load r)) ∧
    _initialize_registry now r =
      (Return tt, with_stored stamped_empty_registry_proto (count_load r)).
Proof.
  intros now r Hs He.
  assert (∀ allow_cache,
            _get_registry_proto now allow_cache r = (Raise FileNotFoundError, count_load r))
    as Hget.
  { intros allow_cache. apply get_registry_proto_missing; [|done].
    rewrite He. by destruct allow_cache. }
  split; [by apply prepare_missing|].
  split; [done|]. split; [done|].
  split; [|split; [done|split]].
  - intros entity project Hv. unfold apply_entity, bind, check. rewrite Hv. simpl.
    rewrite prepare_missing by done. reflexivity.
  - intros n project allow_cache.
    unfold get_entity, get_feature_view, list_entities, bind. by rewrite Hget.
  - unfold _initialize_registry, try_except_FileNotFoundError, bind. by rewrite Hget.
Qed.

(** ** Scans of a collection *)

Lemma list_find_has_key_cons n project x l :
  list_find (has_key n project) (x :: l) =
    if decide (has_key n project x) then Some (0%nat, x)
    else prod_map S id <$> list_find (has_key n project) l.
Proof. reflexivity. Qed.

Lemma del_first_cons n project x l :
  del_first n project (x :: l) =
    if decide (has_key n project x) then l else x :: del_first n project l.
Proof.
  unfold del_first. rewrite list_find_has_key_cons.
  destruct (decide (has_key n project x)); [done|].
  destruct (list_find (has_key n project) l) as [[idx y]|]; done.
Qed.

Lemma del_first_found n project l idx x :
  list_find (has_key n project) l = Some (idx, x) →
  delete idx l = del_first n project l.
Proof. intros H. unfold del_first. by rewrite H. Qed.

Lemma count_key_cons n project x l :
  count_key n project (x :: l) =
    if decide (has_key n project x) then S (count_key n project l)
    else count_key n project l.
Proof.
  unfold count_key. rewrite filter_cons. by destruct (decide (has_key n project x)).
Qed.

Lemma count_key_app n project l1 l2 :
  count_key n project (l1 ++ l2) = (count_key n project l1 + count_key n project l2)%nat.
Proof. unfold count_key. by rewrite filter_app, length_app. Qed.

Lemma count_key_zero n project l :
  count_key n project l = 0%nat ↔ list_find (has_key n project) l = None.
Proof.
  rewrite list_find_None. induction l as [|x l IH].
  - split; [constructor|done].
  - rewrite count_key_cons, Forall_cons.
    destruct (decide (has_key n project x)) as [Hx|Hx].
    + split; [done|]. by intros [? _].
    + rewrite IH. split; [done|]. by intros [_ ?].
Qed.

Lemma count_key_del_first_le n project n' project' l :
  (count_key n' project' (del_first n project l) ≤ count_key n' project' l)%nat.
Proof.
  induction l as [|x l IH]; [done|].
  rewrite del_first_cons. destruct (decide (has_key n project x)).
  - rewrite count_key_cons. destruct (decide _); lia.
  - rewrite !count_key_cons. destruct (decide _); lia.
Qed.

Lemma count_key_del_first_same n project l :
  (count_key n project l ≤ 1)%nat → count_key n project (del_first n project l) = 0%nat.
Proof.
  induction l as [|x l IH]; [done|].
  rewrite del_first_cons, count_key_cons. destruct (decide (has_key n project x)).
  - lia.
  - intros H. rewrite count_key_cons. destruct (decide _); [done|]. by apply IH.
Qed.

Lemma del_visited_none n project l :
  count_key n project l = 0%nat → del_visited n project l = l.
Proof.
  induction l as [|x l IH]; [done|].
  rewrite count_key_cons. simpl. destruct (decide (has_key n project x)); [done|].
  intros H. by rewrite IH.
Qed.

(** On a collection with unique keys, the scan without [break] deletes
    what the scan with [break] deletes. *)
Lemma del_visited_unique n project l :
  (count_key n project l ≤ 1)%nat → del_visited n project l = del_first n project l.
Proof.
  induction l as [|x l IH]; [done|].
  rewrite del_first_cons, count_key_cons. simpl.
  destruct (decide (has_key n project x)).
  - intros H. assert (count_key n project l = 0%nat) as H0 by lia.
    destruct l as [|y l']; [done|].
    rewrite count_key_cons in H0. destruct (decide _); [done|].
    by rewrite del_visited_none.
  - intros H. by rewrite IH.
Qed.

Lemma unique_keys_nil : unique_keys [].
Proof. intros n project. unfold count_key. simpl. lia. Qed.

Lemma unique_keys_del_first n project l :
  unique_keys l → unique_keys (del_first n project l).
Proof.
  intros H n' project'. etrans; [apply count_key_del_first_le|apply H].
Qed.

(** Deleting the entry under a key and appending an entry under that key
    keeps the keys unique. *)
Lemma unique_keys_replace n project l x :
  unique_keys l → has_key n project x →
  unique_keys (del_first n project l ++ [x]).
Proof.
  intros H Hx n' project'. rewrite count_key_app, count_key_cons.
  destruct (decide (has_key n' project' x)) as [Hx'|Hx'].
  - assert (n' = n ∧ project' = project) as [-> ->].
    { destruct Hx as [<- <-], Hx' as [<- <-]. done. }
    rewrite count_key_del_first_same by apply H. done.
  - pose proof (count_key_del_first_le n project n' project' l).
    pose proof (H n' project'). unfold count_key at 2. simpl. lia.
Qed.

(** ** The mutating operations, from the working snapshot on *)

Lemma prepare_leaves_cached now r o r1 :
  _prepare_registry_for_changes now r = (Return o, r1) →
  cached_registry_proto r1 = o.
Proof.
  destruct (prepare_registry_for_changes_total now r) as (s & r1' & -> & Hc & _).
  intros [= <- <-]. done.
Qed.

Ltac run_prepared Hprep :=
  let Hc := fresh "Hc" in
  pose proof (prepare_leaves_cached _ _ _ _ Hprep) as Hc;
  unfold bind at 1; simpl;
  repeat (unfold bind at 1; simpl);
  rewrite ?Hprep; simpl;
  match type of Hc with
  | cached_registry_proto ?r1 = _ =>
      destruct r1 as [? ? ? [? ?]]; simpl in Hc; subst; simpl
  end.

Lemma apply_entity_run now entity project do_commit r s r1 :
  is_valid entity = true →
  _prepare_registry_for_changes now r = (Return (Some s), r1) →
  apply_entity now entity project do_commit r =
    (Return tt,
     finish do_commit
       (set_entities (del_first (name entity) project (entities s) ++
                      [set_project project (to_proto entity)]) s) r1).
Proof.
  intros Hv Hprep. unfold apply_entity, check. rewrite Hv.
  run_prepared Hprep. by destruct do_commit.
Qed.

Lemma apply_feature_service_run now feature_service project do_commit r s r1 :
  _prepare_registry_for_changes now r = (Return (Some s), r1) →
  apply_feature_service now feature_service project do_commit r =
    (Return tt,
     finish do_commit
       (set_feature_services
          (del_visited (name feature_service) project (feature_services s) ++
           [set_project project (to_proto feature_service)]) s) r1).
Proof.
  intros Hprep. unfold apply_feature_service.
  run_prepared Hprep. by destruct do_commit.
Qed.

Lemma stamp_created_name now fv : name (fv_fco (stamp_created now fv)) = name (fv_fco fv).
Proof. unfold stamp_created. by destruct (created_timestamp (fv_fco fv)). Qed.

Lemma stamp_created_class now fv : fv_class (stamp_created now fv) = fv_class fv.
Proof. unfold stamp_created. by destruct (created_timestamp (fv_fco fv)). Qed.

Lemma check_conflicting_raises fv s r1 c p :
  cached_registry_proto r1 = Some s →
  _existing_feature_view_names_to_fvs s !! name (fv_fco fv) = Some (c, p) →
  c ≠ fv_class fv →
  _check_conflicting_feature_view_names fv r1 =
    (Raise (ConflictingFeatureViewNames (name (fv_fco fv))), r1).
Proof.
  intros Hc Hl Hne. unfold _check_conflicting_feature_view_names, bind, assert_cached.
  unfold bind, get_self. rewrite Hc. simpl. rewrite Hl.
  destruct (decide (c = fv_class fv)); done.
Qed.

Lemma check_conflicting_passes fv s r1 :
  cached_registry_proto r1 = Some s →
  no_conflict fv s →
  _check_conflicting_feature_view_names fv r1 = (Return tt, r1).
Proof.
  intros Hc Hn. unfold _check_conflicting_feature_view_names, bind, assert_cached.
  unfold bind, get_self. rewrite Hc. simpl. unfold no_conflict in Hn.
  destruct (_ !! _) as [[c p]|]; [|done].
  destruct (decide (c = fv_class fv)); done.
Qed.

Lemma apply_feature_view_conflict now fv project do_commit r s r1 c p :
  ensure_valid fv = true →
  _prepare_registry_for_changes now r = (Return (Some s), r1) →
  _existing_feature_view_names_to_fvs s !! name (fv_fco fv) = Some (c, p) →
  c ≠ fv_class fv →
  apply_feature_view now fv project do_commit r =
    (Raise (ConflictingFeatureViewNames (name (fv_fco fv))), r1).
Proof.
  intros Hv Hprep Hl Hne. unfold apply_feature_view, check. rewrite Hv.
  pose proof (prepare_leaves_cached _ _ _ _ Hprep) as Hc.
  unfold bind at 1. simpl. unfold bind at 1. rewrite Hprep.
  unfold bind at 1. unfold assert_cached at 1, bind at 1, get_self. rewrite Hc. simpl.
  unfold bind at 1.
  rewrite (check_conflicting_raises _ s r1 c p); rewrite ?stamp_created_name, ?stamp_created_class; done.
Qed.

Lemma apply_feature_view_unchanged now fv project do_commit r s r1 idx existing :
  ensure_valid fv = true →
  _prepare_registry_for_changes now r = (Return (Some s), r1) →
  no_conflict fv s →
  list_find (has_key (name (fv_fco fv)) project) (views_of (fv_class fv) s) =
    Some (idx, existing) →
  fv_eqb {| fv_class := fv_class fv; fv_fco := from_proto existing |}
         (stamp_created now fv) = true →
  apply_feature_view now fv project do_commit r = (Return tt, r1).
Proof.
  intros Hv Hprep Hn Hf He. unfold apply_feature_view, check. rewrite Hv.
  pose proof (prepare_leaves_cached _ _ _ _ Hprep) as Hc.
  unfold bind at 1. simpl. unfold bind at 1. rewrite Hprep.
  unfold bind at 1. unfold assert_cached at 1, bind at 1, get_self. rewrite Hc. simpl.
  unfold bind at 1. rewrite (check_conflicting_passes _ s r1); [|done|].
  2: { unfold no_conflict. by rewrite stamp_created_name, stamp_created_class. }
  unfold bind at 1. unfold assert_cached at 1, bind at 1, get_self. rewrite Hc. simpl.
  rewrite stamp_created_name, stamp_created_class, Hf, He. done.
Qed.

Lemma apply_feature_view_run now fv project do_commit r s r1 :
  ensure_valid fv = true →
  _prepare_registry_for_changes now r = (Return (Some s), r1) →
  no_conflict fv s →
  (∀ idx existing,
     list_find (has_key (name (fv_fco fv)) project) (views_of (fv_class fv) s) =
       Some (idx, existing) →
     fv_eqb {| fv_class := fv_class fv; fv_fco := from_proto existing |}
            (stamp_created now fv) = false) →
  apply_feature_view now fv project do_commit r =
    (Return tt,
     finish do_commit
       (set_views_of (fv_class fv)
          (del_first (name (fv_fco fv)) project (views_of (fv_class fv) s) ++
           [set_project project (to_proto (fv_fco (stamp_created now fv)))]) s) r1).
Proof.
  intros Hv Hprep Hn He. unfold apply_feature_view, check. rewrite Hv.
  pose proof (prepare_leaves_cached _ _ _ _ Hprep) as Hc.
  unfold bind at 1. simpl. unfold bind at 1. rewrite Hprep.
  unfold bind at 1. unfold assert_cached at 1, bind at 1, get_self. rewrite Hc. simpl.
  unfold bind at 1. rewrite (check_conflicting_passes _ s r1); [|done|].
  2: { unfold no_conflict. by rewrite stamp_created_name, stamp_created_class. }
  unfold bind at 1. unfold assert_cached at 1, bind at 1, get_self. rewrite Hc. simpl.
  rewrite stamp_created_name, stamp_created_class. unfold del_first.
  destruct (list_find _ _) as [[idx existing]|] eqn:Hf.
  - rewrite (He idx existing eq_refl).
    destruct r1 as [? ? ? [? ?]]; simpl in Hc; subst.
    destruct (fv_class fv), do_commit; reflexivity.
  - destruct r1 as [? ? ? [? ?]]; simpl in Hc; subst.
    destruct (fv_class fv), do_commit; reflexivity.
Qed.

(** ** Apply *)

(** C1 (as amended): for the three feature view classes, applying a view
    that equals the entry stored under the same (name, project) leaves the
    registry as [_prepare_registry_for_changes] left it: nothing is removed
    and nothing appended, and the call returns when the name check passes.
    Entities and feature services are not compared: the stored entry is
    deleted and the incoming one appended at the end of the collection. *)
Theorem apply_of_identical_object :
  (∀ now fv project do_commit r s r1 idx existing,
     ensure_valid fv = true →
     _prepare_registry_for_changes now r = (Return (Some s), r1) →
     list_find (has_key (name (fv_fco fv)) project) (views_of (fv_class fv) s) =
       Some (idx, existing) →
     fv_eqb {| fv_class := fv_class fv; fv_fco := from_proto existing |}
            (stamp_created now fv) = true →
     (apply_feature_view now fv project do_commit r).2 = r1 ∧
     cached_registry_proto r1 = Some s ∧
     (no_conflict fv s → apply_feature_view now fv project do_commit r = (Return tt, r1))) ∧
  (∀ now entity project do_commit r s r1,
     is_valid entity = true →
     _prepare_registry_for_changes now r = (Return (Some s), r1) →
     apply_entity now entity project do_commit r =
       (Return tt,
        finish do_commit
          (set_entities (del_first (name entity) project (entities s) ++
                         [set_project project (to_proto entity)]) s) r1)) ∧
  (∀ now feature_service project do_commit r s r1,
     _prepare_registry_for_changes now r = (Return (Some s), r1) →
     apply_feature_service now feature_service project do_commit r =
       (Return tt,
        finish do_commit
          (set_feature_services
             (del_visited (name feature_service) project (feature_services s) ++
              [set_project project (to_proto feature_service)]) s) r1)).
Proof.
  split; [|split].
  - intros now fv project do_commit r s r1 idx existing Hv Hprep Hf He.
    split; [|split].
    + destruct (_existing_feature_view_names_to_fvs s !! name (fv_fco fv))
        as [[c p]|] eqn:Hl.
      * destruct (decide (c = fv_class fv)) as [->|Hne].
        -- rewrite (apply_feature_view_unchanged now fv project do_commit r s r1 idx existing);
             [done..| |done|done].
           unfold no_conflict. by rewrite Hl.
        -- by rewrite (apply_feature_view_conflict now fv project do_commit r s r1 c p).
      * rewrite (apply_feature_view_unchanged now fv project do_commit r s r1 idx existing);
          [done..| |done|done].
        unfold no_conflict. by rewrite Hl.
    + by apply prepare_leaves_cached in Hprep.
    + intros Hn. by eapply apply_feature_view_unchanged.
  - intros. by apply apply_entity_run.
  - intros. by apply apply_feature_service_run.
Qed.

(** ** The name table of the feature views *)

Lemma names_to_fvs_acc_Some c l (m : gmap string (FvClass * ObjectProto)) n x :
  foldl (λ m fv, <[spec_name fv := (c, fv)]> m) m l !! n = Some x →
  m !! n = Some x ∨ (x.1 = c ∧ x.2 ∈ l ∧ spec_name x.2 = n).
Proof.
  revert m. induction l as [|y l IH]; intros m; simpl; [auto|].
  intros H. apply IH in H as [H|(?&?&?)].
  - destruct (decide (spec_name y = n)) as [Heq|Hne].
    + rewrite Heq, lookup_insert_eq in H. injection H as <-. right. simpl.
      split; [done|]. split; [apply list_elem_of_here|done].
    + rewrite lookup_insert_ne in H by done. auto.
  - right. split; [done|]. split; [by apply list_elem_of_further|done].
Qed.

Lemma names_to_fvs_acc_None c l (m : gmap string (FvClass * ObjectProto)) n :
  foldl (λ m fv, <[spec_name fv := (c, fv)]> m) m l !! n = None →
  m !! n = None ∧ n ∉ spec_name <$> l.
Proof.
  revert m. induction l as [|y l IH]; intros m; simpl.
  - intros H. split; [done|]. apply not_elem_of_nil.
  - intros H. apply IH in H as [H Hl].
    destruct (decide (spec_name y = n)) as [Heq|Hne].
    + by rewrite Heq, lookup_insert_eq in H.
    + rewrite lookup_insert_ne in H by done. split; [done|].
      rewrite not_elem_of_cons. auto.
Qed.

Lemma names_to_fvs_Some c l n x :
  names_to_fvs c l !! n = Some x → x.1 = c ∧ x.2 ∈ l ∧ spec_name x.2 = n.
Proof.
  intros H. apply names_to_fvs_acc_Some in H as [H|H]; [|done].
  by rewrite lookup_empty in H.
Qed.

Lemma names_to_fvs_None c l n :
  names_to_fvs c l !! n = None → n ∉ spec_name <$> l.
Proof. intros H. by apply names_to_fvs_acc_None in H as [_ H]. Qed.

(** A name in the table comes from the collection of the class it is
    mapped to. *)
Lemma existing_names_Some s n c p :
  _existing_feature_view_names_to_fvs s !! n = Some (c, p) →
  p ∈ views_of c s ∧ spec_name p = n.
Proof.
  unfold _existing_feature_view_names_to_fvs. intros H.
  apply lookup_union_Some_raw in H as [H|[_ H]];
    [|apply lookup_union_Some_raw in H as [H|[_ H]]];
    apply names_to_fvs_Some in H as (Hc & Hin & Hn); simpl in *; by subst c.
Qed.

(** Every name used by some feature view of some class is in the table. *)
Lemma existing_names_None s n c p :
  _existing_feature_view_names_to_fvs s !! n = None →
  p ∈ views_of c s → spec_name p ≠ n.
Proof.
  unfold _existing_feature_view_names_to_fvs. intros H Hin Hn.
  apply lookup_union_None in H as [H1 H].
  apply lookup_union_None in H as [H2 H3].
  apply names_to_fvs_None in H1, H2, H3.
  assert (n ∈ spec_name <$> views_of c s) as Hel.
  { rewrite <-Hn. by apply list_elem_of_fmap_2. }
  destruct c; simpl in Hel; contradiction.
Qed.

(** ** Delete and materialization, from the working snapshot on *)

Lemma delete_entity_found now n project do_commit r s r1 idx x :
  _prepare_registry_for_changes now r = (Return (Some s), r1) →
  list_find (has_key n project) (entities s) = Some (idx, x) →
  delete_entity now n project do_commit r =
    (Return tt, finish do_commit (set_entities (delete idx (entities s)) s) r1).
Proof.
  intros Hprep Hf. unfold delete_entity, assert_cached. run_prepared Hprep.
  rewrite Hf. by destruct do_commit.
Qed.

Lemma delete_entity_missing now n project do_commit r s r1 :
  _prepare_registry_for_changes now r = (Return (Some s), r1) →
  list_find (has_key n project) (entities s) = None →
  delete_entity now n project do_commit r = (Raise (EntityNotFoundException n project), r1).
Proof.
  intros Hprep Hf. unfold delete_entity, assert_cached. run_prepared Hprep.
  by rewrite Hf.
Qed.

Lemma delete_feature_service_found now n project do_commit r s r1 idx x :
  _prepare_registry_for_changes now r = (Return (Some s), r1) →
  list_find (has_key n project) (feature_services s) = Some (idx, x) →
  delete_feature_service now n project do_commit r =
    (Return tt,
     finish do_commit (set_feature_services (delete idx (feature_services s)) s) r1).
Proof.
  intros Hprep Hf. unfold delete_feature_service, assert_cached. run_prepared Hprep.
  rewrite Hf. by destruct do_commit.
Qed.

Lemma delete_feature_service_missing now n project do_commit r s r1 :
  _prepare_registry_for_changes now r = (Return (Some s), r1) →
  list_find (has_key n project) (feature_services s) = None →
  delete_feature_service now n project do_commit r =
    (Raise (FeatureServiceNotFoundException n project), r1).
Proof.
  intros Hprep Hf. unfold delete_feature_service, assert_cached. run_prepared Hprep.
  by rewrite Hf.
Qed.

Lemma delete_feature_view_found now n project do_commit r s r1 idx x :
  _prepare_registry_for_changes now r = (Return (Some s), r1) →
  list_find (has_key n project) (feature_views s) = Some (idx, x) →
  delete_feature_view now n project do_commit r =
    (Return tt, finish do_commit (set_feature_views (delete idx (feature_views s)) s) r1).
Proof.
  intros Hprep Hf. unfold delete_feature_view, assert_cached. run_prepared Hprep.
  rewrite Hf. by destruct do_commit.
Qed.

Lemma delete_feature_view_found_request now n project do_commit r s r1 idx x :
  _prepare_registry_for_changes now r = (Return (Some s), r1) →
  list_find (has_key n project) (feature_views s) = None →
  list_find (has_key n project) (request_feature_views s) = Some (idx, x) →
  delete_feature_view now n project do_commit r =
    (Return tt,
     finish do_commit
       (set_request_feature_views (delete idx (request_feature_views s)) s) r1).
Proof.
  intros Hprep Hf Hf'. unfold delete_feature_view, assert_cached. run_prepared Hprep.
  rewrite Hf, Hf'. by destruct do_commit.
Qed.

Lemma delete_feature_view_missing now n project do_commit r s r1 :
  _prepare_registry_for_changes now r = (Return (Some s), r1) →
  list_find (has_key n project) (feature_views s) = None →
  list_find (has_key n project) (request_feature_views s) = None →
  delete_feature_view now n project do_commit r =
    (Raise (FeatureViewNotFoundException n project), r1).
Proof.
  intros Hprep Hf Hf'. unfold delete_feature_view, assert_cached. run_prepared Hprep.
  by rewrite Hf, Hf'.
Qed.

Lemma apply_materialization_found now fv project start_date end_date do_commit r s r1 idx x :
  _prepare_registry_for_changes now r = (Return (Some s), r1) →
  list_find (has_key (name fv) project) (feature_views s) = Some (idx, x) →
  apply_materialization now fv project start_date end_date do_commit r =
    (Return tt,
     finish do_commit
       (set_feature_views
          (delete idx (feature_views s) ++
           [set_project project
              (to_proto (append_interval start_date end_date (from_proto x)))]) s) r1).
Proof.
  intros Hprep Hf. unfold apply_materialization, assert_cached. run_prepared Hprep.
  rewrite Hf. by destruct do_commit.
Qed.

Lemma apply_materialization_missing now fv project start_date end_date do_commit r s r1 :
  _prepare_registry_for_changes now r = (Return (Some s), r1) →
  list_find (has_key (name fv) project) (feature_views s) = None →
  apply_materialization now fv project start_date end_date do_commit r =
    (Raise (FeatureViewNotFoundException (name fv) project), r1).
Proof.
  intros Hprep Hf. unfold apply_materialization, assert_cached. run_prepared Hprep.
  by rewrite Hf.
Qed.

(** C10 (as amended): the name check looks at names only, whatever the
    project.  When the working snapshot holds, under any project [p1], a
    feature view named [n] of some class, and holds no view named [n] of the
    incoming view's own class, applying a view named [n] of that other class
    to any project [p2] raises [ConflictingFeatureViewNames], also when
    nothing is stored under ([n], [p2]). *)
Theorem conflicting_names_ignore_project :
  ∀ now fv p2 do_commit r s r1 c obj p1,
    ensure_valid fv = true →
    _prepare_registry_for_changes now r = (Return (Some s), r1) →
    obj ∈ views_of c s →
    spec_name obj = name (fv_fco fv) →
    spec_project obj = p1 →
    c ≠ fv_class fv →
    name (fv_fco fv) ∉ spec_name <$> views_of (fv_class fv) s →
    apply_feature_view now fv p2 do_commit r =
      (Raise (ConflictingFeatureViewNames (name (fv_fco fv))), r1).
Proof.
  intros now fv p2 do_commit r s r1 c obj p1 Hv Hprep Hin Hn _ Hne Hown.
  destruct (_existing_feature_view_names_to_fvs s !! name (fv_fco fv))
    as [[c' p]|] eqn:Hl.
  - eapply apply_feature_view_conflict; [done..|].
    intros ->. apply existing_names_Some in Hl as [Hp Hpn].
    apply Hown. rewrite <-Hpn. by apply list_elem_of_fmap_2.
  - by destruct (existing_names_None s _ c obj Hl Hin).
Qed.

(** ** Delete *)

(** How the prepared registry comes from the registry before the call:
    a cache that has not expired is kept, and with it the whole registry; an
    expired or missing cache is replaced by the stored snapshot, or by the
    empty snapshot when the store has none. *)
Lemma prepare_from_before now r s r1 :
  _prepare_registry_for_changes now r = (Return (Some s), r1) →
  (expired now r = false → r1 = r ∧ cached_registry_proto r = Some s) ∧
  (expired now r = true →
   r1 = with_cache s now (count_load r) ∧
   s = default stamped_empty_registry_proto (stored (registry_store r))).
Proof.
  intros Hprep. split; intros He.
  - assert (∃ s', cached_registry_proto r = Some s') as [s' Hc].
    { unfold expired in He. destruct (cached_registry_proto r); [eauto|done]. }
    rewrite (prepare_cached now r s') in Hprep by done. by injection Hprep as <- <-.
  - destruct (stored (registry_store r)) as [s0|] eqn:Hs.
    + rewrite (prepare_load now r s0) in Hprep by done. by injection Hprep as <- <-.
    + rewrite (prepare_missing now r) in Hprep by done. by injection Hprep as <- <-.
Qed.

(** C6 (as amended): a delete works on the working snapshot [s] that
    [_prepare_registry_for_changes] yields: the cached snapshot when the
    cache has not expired, the registry being then as before the call, and
    otherwise the stored snapshot (the empty one when the store has none),
    which replaces the cache.  Each delete raises its own NotFound exception
    exactly when the scanned collections of [s] hold no entry under
    (name, project), and the registry then stays as prepared, every
    collection of [s] unchanged; when there is an entry, the delete returns
    and removes the first one.  [delete_feature_view] scans the feature
    views and then the request feature views. *)
Theorem delete_raises_exactly_when_absent :
  ∀ now n project do_commit r s r1,
    _prepare_registry_for_changes now r = (Return (Some s), r1) →
    cached_registry_proto r1 = Some s ∧
    (expired now r = false → r1 = r ∧ cached_registry_proto r = Some s) ∧
    (expired now r = true →
     r1 = with_cache s now (count_load r) ∧
     s = default stamped_empty_registry_proto (stored (registry_store r))) ∧
    (count_key n project (entities s) = 0%nat →
     delete_entity now n project do_commit r =
       (Raise (EntityNotFoundException n project), r1)) ∧
    (count_key n project (entities s) ≠ 0%nat →
     delete_entity now n project do_commit r =
       (Return tt,
        finish do_commit (set_entities (del_first n project (entities s)) s) r1)) ∧
    (count_key n project (feature_services s) = 0%nat →
     delete_feature_service now n project do_commit r =
       (Raise (FeatureServiceNotFoundException n project), r1)) ∧
    (count_key n project (feature_services s) ≠ 0%nat →
     delete_feature_service now n project do_commit r =
       (Return tt,
        finish do_commit
          (set_feature_services (del_first n project (feature_services s)) s) r1)) ∧
    (count_key n project (feature_views s) = 0%nat →
     count_key n project (request_feature_views s) = 0%nat →
     delete_feature_view now n project do_commit r =
       (Raise (FeatureViewNotFoundException n project), r1)) ∧
    (count_key n project (feature_views s) ≠ 0%nat →
     delete_feature_view now n project do_commit r =
       (Return tt,
        finish do_commit (set_feature_views (del_first n project (feature_views s)) s) r1)) ∧
    (count_key n project (feature_views s) = 0%nat →
     count_key n project (request_feature_views s) ≠ 0%nat →
     delete_feature_view now n project do_commit r =
       (Return tt,
        finish do_commit
          (set_request_feature_views
             (del_first n project (request_feature_views s)) s) r1)).
Proof.
  intros now n project do_commit r s r1 Hprep.
  destruct (prepare_from_before now r s r1 Hprep) as [Hlive Hstale].
  split; [by apply prepare_leaves_cached in Hprep|].
  split; [exact Hlive|]. split; [exact Hstale|].
  clear Hlive Hstale.
  repeat split; rewrite ?count_key_zero; intros.
  - by apply delete_entity_missing with s.
  - destruct (list_find (has_key n project) (entities s)) as [[idx x]|] eqn:Hf; [|done].
    rewrite <-(del_first_found n project _ idx x Hf). by eapply delete_entity_found.
  - by apply delete_feature_service_missing with s.
  - destruct (list_find (has_key n project) (feature_services s)) as [[idx x]|] eqn:Hf;
      [|done].
    rewrite <-(del_first_found n project _ idx x Hf). by eapply delete_feature_service_found.
  - by apply delete_feature_view_missing with s.
  - destruct (list_find (has_key n project) (feature_views s)) as [[idx x]|] eqn:Hf; [|done].
    rewrite <-(del_first_found n project _ idx x Hf). by eapply delete_feature_view_found.
  - destruct (list_find (has_key n project) (request_feature_views s))
      as [[idx x]|] eqn:Hf; [|done].
    rewrite <-(del_first_found n project _ idx x Hf).
    by eapply delete_feature_view_found_request.
Qed.

(** ** The name check, on the collections *)

Lemma class_rank_inj c c' : class_rank c = class_rank c' → c = c'.
Proof. by destruct c, c'. Qed.

(** The class to which the name table maps a name is the last class of
    the merge that uses the name. *)
Lemma existing_names_top s n c p :
  _existing_feature_view_names_to_fvs s !! n = Some (c, p) →
  ∀ c' obj', (class_rank c < class_rank c')%nat → obj' ∈ views_of c' s → spec_name obj' ≠ n.
Proof.
  unfold _existing_feature_view_names_to_fvs. intros H c' obj' Hrank Hin Hname.
  assert (n ∈ spec_name <$> views_of c' s) as Hel.
  { rewrite <-Hname. by apply list_elem_of_fmap_2. }
  apply lookup_union_Some_raw in H as [H|[Hreq H]].
  - apply names_to_fvs_Some in H as (Hc & _). simpl in Hc. subst c.
    destruct c'; simpl in Hrank; lia.
  - apply names_to_fvs_None in Hreq.
    apply lookup_union_Some_raw in H as [H|[Hfv H]].
    + apply names_to_fvs_Some in H as (Hc & _). simpl in Hc. subst c.
      destruct c'; simpl in Hrank; try lia. by simpl in Hel.
    + apply names_to_fvs_None in Hfv.
      apply names_to_fvs_Some in H as (Hc & _). simpl in Hc. subst c.
      destruct c'; simpl in Hrank; try lia; by simpl in Hel.
Qed.

(** C2 (as amended): on the working snapshot, [apply_feature_view] of a
    valid view raises [ConflictingFeatureViewNames] exactly when its name is
    the name of a view of another class and of no view of a class that comes
    later in the merge of the name table (on-demand views, then feature
    views, then request feature views: the later class replaces the earlier
    one on a shared name).  The registry then stays as
    [_prepare_registry_for_changes] left it, the working snapshot in the
    cache, so that nothing is inserted and every collection is unchanged;
    it is the registry of before the call when the cache had not expired. *)
Theorem apply_feature_view_conflicting_name :
  ∀ now fv project do_commit r s r1,
    ensure_valid fv = true →
    _prepare_registry_for_changes now r = (Return (Some s), r1) →
    ((∃ c obj,
        obj ∈ views_of c s ∧ spec_name obj = name (fv_fco fv) ∧ c ≠ fv_class fv ∧
        ∀ c' obj', (class_rank c < class_rank c')%nat → obj' ∈ views_of c' s →
                   spec_name obj' ≠ name (fv_fco fv)) ↔
     apply_feature_view now fv project do_commit r =
       (Raise (ConflictingFeatureViewNames (name (fv_fco fv))), r1)) ∧
    cached_registry_proto r1 = Some s ∧
    (expired now r = false → r1 = r).
Proof.
  intros now fv project do_commit r s r1 Hv Hprep.
  split; [|split; [by apply prepare_leaves_cached in Hprep|]].
  2: { intros He. by apply (prepare_from_before now r s r1 Hprep). }
  split.
  - intros (c & obj & Hin & Hname & Hne & Htop).
    destruct (_existing_feature_view_names_to_fvs s !! name (fv_fco fv)) as [[c' x]|] eqn:Hl.
    2: { by destruct (existing_names_None s _ c obj Hl Hin). }
    eapply apply_feature_view_conflict; [done..|].
    pose proof (existing_names_top s _ c' x Hl) as Htop'.
    apply existing_names_Some in Hl as [Hx Hxn].
    assert (c' = c) as ->; [|done].
    apply class_rank_inj.
    destruct (Nat.lt_trichotomy (class_rank c') (class_rank c)) as [Hlt|[Heq|Hgt]]; [|done|].
    + by destruct (Htop' c obj Hlt Hin).
    + by destruct (Htop c' x Hgt Hx).
  - intros Hraise.
    destruct (_existing_feature_view_names_to_fvs s !! name (fv_fco fv)) as [[c' x]|] eqn:Hl.
    1: destruct (decide (c' = fv_class fv)) as [->|Hne].
    2: { pose proof (existing_names_top s _ c' x Hl) as Htop.
         apply existing_names_Some in Hl as [Hx Hxn]. eauto 10. }
    all: assert (no_conflict fv s) as Hn by (unfold no_conflict; by rewrite Hl).
    all: destruct (list_find (has_key (name (fv_fco fv)) project) (views_of (fv_class fv) s))
           as [[idx existing]|] eqn:Hf.
    all: try destruct (fv_eqb {| fv_class := fv_class fv; fv_fco := from_proto existing |}
                              (stamp_created now fv)) eqn:He.
    all: try (rewrite (apply_feature_view_unchanged now fv project do_commit r s r1
                         idx existing) in Hraise by done; discriminate).
    all: rewrite (apply_feature_view_run now fv project do_commit r s r1) in Hraise;
           [discriminate|done..|
            intros idx' existing' Hf'; rewrite Hf in Hf'; by simplify_eq].
Qed.

(** ** Materialization *)


Lemma prepare_synced now r s :
  cached_registry_proto r = Some s →
  stored (registry_store r) = Some s →
  ∃ r1, _prepare_registry_for_changes now r = (Return (Some s), r1) ∧
        stored (registry_store r1) = Some s.
Proof.
  intros Hc Hs. destruct (expired now r) eqn:He.
  - rewrite (prepare_load now r s) by done. eauto.
  - rewrite (prepare_cached now r s) by done. eauto.
Qed.





(** ** The uniqueness invariant *)

Lemma snapshot_unique_stamped_empty : snapshot_unique stamped_empty_registry_proto.
Proof. repeat split; apply unique_keys_nil. Qed.

Lemma snapshot_unique_set_views_of c l s :
  snapshot_unique s → unique_keys l → snapshot_unique (set_views_of c l s).
Proof. intros (?&?&?&?&?) ?. destruct c; repeat split; done. Qed.

Lemma snapshot_unique_set_entities l s :
  snapshot_unique s → unique_keys l → snapshot_unique (set_entities l s).
Proof. intros (?&?&?&?&?) ?. repeat split; done. Qed.

Lemma snapshot_unique_set_feature_services l s :
  snapshot_unique s → unique_keys l → snapshot_unique (set_feature_services l s).
Proof. intros (?&?&?&?&?) ?. repeat split; done. Qed.

Lemma snapshot_unique_views_of c s : snapshot_unique s → unique_keys (views_of c s).
Proof. intros (?&?&?&?&?). by destruct c. Qed.

Lemma prepare_unique now r s r1 :
  registry_unique r →
  _prepare_registry_for_changes now r = (Return (Some s), r1) →
  snapshot_unique s ∧ registry_unique r1.
Proof.
  intros [Hcache Hstore] Hprep.
  destruct (prepare_registry_for_changes_total now r) as (s' & r1' & Heq & Hc & Hs & Hfrom).
  rewrite Hprep in Heq. injection Heq as <- <-.
  assert (snapshot_unique s) as Hu.
  { destruct Hfrom as [?|[?| ->]]; [by apply Hcache|by apply Hstore|].
    apply snapshot_unique_stamped_empty. }
  split; [done|]. split.
  - intros s'. rewrite Hc. by intros [= <-].
  - intros s'. rewrite Hs. apply Hstore.
Qed.

Lemma finish_unique do_commit s r :
  snapshot_unique s → registry_unique r → registry_unique (finish do_commit s r).
Proof.
  intros Hu [Hcache Hstore]. destruct do_commit; split; simpl; intros s'; try apply Hstore;
    by intros [= <-].
Qed.

(** Where [apply_feature_view] leaves a registry whose working snapshot
    is [s]: as it was prepared (the name check raised, or the stored view
    equals the incoming one), or with the view replaced. *)
Lemma apply_feature_view_state now fv project do_commit r s r1 :
  ensure_valid fv = true →
  _prepare_registry_for_changes now r = (Return (Some s), r1) →
  (apply_feature_view now fv project do_commit r).2 = r1 ∨
  (apply_feature_view now fv project do_commit r).2 =
    finish do_commit
      (set_views_of (fv_class fv)
         (del_first (name (fv_fco fv)) project (views_of (fv_class fv) s) ++
          [set_project project (to_proto (fv_fco (stamp_created now fv)))]) s) r1.
Proof.
  intros Hv Hprep.
  assert (no_conflict fv s ∨
          ∃ c p, _existing_feature_view_names_to_fvs s !! name (fv_fco fv) = Some (c, p) ∧
                 c ≠ fv_class fv) as [Hn|(c & p & Hl & Hne)].
  { unfold no_conflict.
    destruct (_existing_feature_view_names_to_fvs s !! name (fv_fco fv)) as [[c p]|];
      [|by left].
    destruct (decide (c = fv_class fv)); [by left|right; eauto]. }
  - destruct (list_find (has_key (name (fv_fco fv)) project) (views_of (fv_class fv) s))
      as [[idx existing]|] eqn:Hf.
    + destruct (fv_eqb {| fv_class := fv_class fv; fv_fco := from_proto existing |}
                       (stamp_created now fv)) eqn:He.
      * left. by rewrite (apply_feature_view_unchanged now fv project do_commit r s r1 idx existing).
      * right. rewrite (apply_feature_view_run now fv project do_commit r s r1); [done..|].
        intros idx' existing' Hf'. rewrite Hf in Hf'. by injection Hf' as <- <-.
    + right. rewrite (apply_feature_view_run now fv project do_commit r s r1); [done..|].
      intros idx' existing' Hf'. by rewrite Hf in Hf'.
  - left. by rewrite (apply_feature_view_conflict now fv project do_commit r s r1 c p).
Qed.

Lemma run_op_unique o r : registry_unique r → registry_unique (run_op o r).2.
Proof.
  intros Hr.
  destruct o as [now e p c|now fs p c|now fv p c|now fv p st en c|now n p c|now n p c|now n p c];
    simpl;
    destruct (prepare_registry_for_changes_total now r) as (s & r1 & Hprep & _);
    destruct (prepare_unique now r s r1 Hr Hprep) as [Hs Hr1].
  - destruct (is_valid e) eqn:Hv.
    + rewrite (apply_entity_run now e p c r s r1) by done. simpl.
      apply finish_unique; [|done]. apply snapshot_unique_set_entities; [done|].
      apply unique_keys_replace; [apply Hs|done].
    + unfold apply_entity, check, bind. rewrite Hv. done.
  - rewrite (apply_feature_service_run now fs p c r s r1) by done. simpl.
    apply finish_unique; [|done]. apply snapshot_unique_set_feature_services; [done|].
    rewrite del_visited_unique by apply Hs.
    apply unique_keys_replace; [apply Hs|done].
  - destruct (ensure_valid fv) eqn:Hv.
    + destruct (apply_feature_view_state now fv p c r s r1 Hv Hprep) as [-> | ->]; [done|].
      apply finish_unique; [|done]. apply snapshot_unique_set_views_of; [done|].
      apply unique_keys_replace; [by apply snapshot_unique_views_of|].
      split; [|done]. simpl. apply stamp_created_name.
    + unfold apply_feature_view, check, bind. rewrite Hv. done.
  - destruct (list_find (has_key (name fv) p) (feature_views s)) as [[idx x]|] eqn:Hf.
    + rewrite (apply_materialization_found now fv p st en c r s r1 idx x) by done. simpl.
      apply finish_unique; [|done]. apply snapshot_unique_set_views_of with (c:=FeatureView);
        [done|].
      rewrite (del_first_found _ _ _ _ _ Hf).
      apply unique_keys_replace; [apply Hs|]. split; [|done].
      by apply list_find_Some in Hf as (_ & [? _] & _).
    + by rewrite (apply_materialization_missing now fv p st en c r s r1).
  - destruct (list_find (has_key n p) (entities s)) as [[idx x]|] eqn:Hf.
    + rewrite (delete_entity_found now n p c r s r1 idx x) by done. simpl.
      apply finish_unique; [|done]. apply snapshot_unique_set_entities; [done|].
      rewrite (del_first_found _ _ _ _ _ Hf). apply unique_keys_del_first, Hs.
    + by rewrite (delete_entity_missing now n p c r s r1).
  - destruct (list_find (has_key n p) (feature_views s)) as [[idx x]|] eqn:Hf.
    + rewrite (delete_feature_view_found now n p c r s r1 idx x) by done. simpl.
      apply finish_unique; [|done].
      apply snapshot_unique_set_views_of with (c:=FeatureView); [done|].
      rewrite (del_first_found _ _ _ _ _ Hf). apply unique_keys_del_first, Hs.
    + destruct (list_find (has_key n p) (request_feature_views s)) as [[idx x]|] eqn:Hf'.
      * rewrite (delete_feature_view_found_request now n p c r s r1 idx x) by done. simpl.
        apply finish_unique; [|done].
        apply snapshot_unique_set_views_of with (c:=RequestFeatureView); [done|].
        rewrite (del_first_found _ _ _ _ _ Hf'). apply unique_keys_del_first, Hs.
      * by rewrite (delete_feature_view_missing now n p c r s r1).
  - destruct (list_find (has_key n p) (feature_services s)) as [[idx x]|] eqn:Hf.
    + rewrite (delete_feature_service_found now n p c r s r1 idx x) by done. simpl.
      apply finish_unique; [|done]. apply snapshot_unique_set_feature_services; [done|].
      rewrite (del_first_found _ _ _ _ _ Hf). apply unique_keys_del_first, Hs.
    + by rewrite (delete_feature_service_missing now n p c r s r1).
Qed.

(** C8: from a registry whose cached and stored snapshots have at most
    one entry per (name, project) in each of the five collections, every
    state reached by a sequence of apply, delete and materialization calls
    has a cached snapshot (and a stored one) of which the same holds. *)
Theorem reachable_states_have_unique_keys :
  ∀ r0 r,
    registry_unique r0 →
    reachable r0 r →
    ∀ s, cached_registry_proto r = Some s →
      ∀ n project,
        (count_key n project (entities s) ≤ 1)%nat ∧
        (count_key n project (feature_views s) ≤ 1)%nat ∧
        (count_key n project (on_demand_feature_views s) ≤ 1)%nat ∧
        (count_key n project (request_feature_views s) ≤ 1)%nat ∧
        (count_key n project (feature_services s) ≤ 1)%nat.
Proof.
  intros r0 r H0 Hreach.
  assert (registry_unique r) as [Hcache _].
  { induction Hreach; [done|]. by apply run_op_unique. }
  intros s Hs n project. destruct (Hcache s Hs) as (?&?&?&?&?).
  repeat split; done.
Qed.

(** ** Projection *)











(** ** Diff *)

Lemma filter_all {A} (P : A → Prop) `{∀ x, Decision (P x)} (l : list A) :
  Forall P l → filter P l = l.
Proof.
  induction 1 as [|x l Hx _ IH]; [done|]. by rewrite filter_cons_True, IH.
Qed.

Lemma filter_none {A} (P : A → Prop) `{∀ x, Decision (P x)} (l : list A) :
  Forall (λ x, ¬ P x) l → filter P l = [].
Proof.
  induction 1 as [|x l Hx _ IH]; [done|]. by rewrite filter_cons_False.
Qed.

Lemma tag_proto_objects_self l :
  tag_proto_objects_for_keep_delete_add l l = (l, [], []).
Proof.
  unfold tag_proto_objects_for_keep_delete_add.
  assert (Forall (λ e, spec_name e ∈ spec_name <$> l) l) as Hall.
  { apply Forall_forall. intros e He. by apply list_elem_of_fmap_2. }
  rewrite filter_all by done.
  rewrite filter_none; [done|].
  eapply Forall_impl; [exact Hall|]. intros e He Hne. by apply Hne.
Qed.

Lemma property_diffs_self x : property_diffs x x = [].
Proof.
  unfold property_diffs. induction (spec_fields x) as [|[f v] l IH]; [done|].
  simpl. by rewrite decide_True.
Qed.

Lemma diff_between_self x object_type : diff_between x x object_type = None.
Proof. unfold diff_between. by rewrite property_diffs_self. Qed.

(** In a collection with distinct names, the scan for the name of one of
    its elements finds that element. *)
Lemma head_filter_distinct_names l e :
  distinct_names l → e ∈ l →
  head (filter (λ _e, spec_name _e = spec_name e) l) = Some e.
Proof.
  unfold distinct_names. induction l as [|x l IH]; intros Hnd He.
  - by apply elem_of_nil in He.
  - rewrite fmap_cons in Hnd. apply NoDup_cons in Hnd as [Hx Hnd].
    apply elem_of_cons in He as [->|He].
    + by rewrite filter_cons_True.
    + rewrite filter_cons_False; [by apply IH|].
      intros Heq. apply Hx. rewrite Heq. by apply list_elem_of_fmap_2.
Qed.

Lemma diff_kept_self l object_type diff kept :
  distinct_names l → Forall (λ e, e ∈ l) kept →
  foldl (diff_kept l object_type) (Return diff) kept = Return diff.
Proof.
  intros Hnd. induction 1 as [|e kept He _ IH]; [done|].
  simpl. by rewrite head_filter_distinct_names, diff_between_self.
Qed.

Lemma diff_object_type_self s diff (object_type : (RegistryProto → list ObjectProto) * string) :
  distinct_names (object_type.1 s) →
  diff_object_type s s (Return diff) object_type = Return diff.
Proof.
  intros Hnd. unfold diff_object_type. rewrite tag_proto_objects_self. simpl.
  apply diff_kept_self; [done|]. by apply Forall_forall.
Qed.

(** C3 (as amended): for a snapshot in which, within each of the six
    collections, no two entries share a name, the diff of the snapshot with
    itself is the empty change set: every entry is matched with itself, the
    field comparison finds no difference, and no record is added. *)
Theorem diff_between_self_is_empty :
  ∀ s,
    distinct_names (entities s) →
    distinct_names (feature_views s) →
    distinct_names (feature_tables s) →
    distinct_names (on_demand_feature_views s) →
    distinct_names (request_feature_views s) →
    distinct_names (feature_services s) →
    Registry_diff_between s s = Return [].
Proof.
  intros s H1 H2 H3 H4 H5 H6. unfold Registry_diff_between, object_types.
  cbn [foldl]. by rewrite !diff_object_type_self.
Qed.

(** ** Reads after writes *)

Lemma from_proto_set_project project o : from_proto (set_project project (to_proto o)) = o.
Proof. by destruct o. Qed.

Lemma prepare_keeps_stored now r o r1 :
  _prepare_registry_for_changes now r = (Return o, r1) →
  stored (registry_store r1) = stored (registry_store r).
Proof.
  destruct (prepare_registry_for_changes_total now r) as (s & r1' & -> & _ & Hs & _).
  by intros [= <- <-].
Qed.



Lemma list_find_after_replace n project l x :
  (count_key n project l ≤ 1)%nat → has_key n project x →
  list_find (has_key n project) (del_first n project l ++ [x]) =
    Some (length (del_first n project l), x).
Proof.
  intros Hu Hx. apply list_find_app_Some. right.
  split; [lia|]. split.
  - by apply count_key_zero, count_key_del_first_same.
  - rewrite Nat.sub_diag. simpl. by rewrite decide_True.
Qed.

Lemma del_first_app_last n project l x :
  count_key n project l = 0%nat → has_key n project x →
  del_first n project (l ++ [x]) = l.
Proof.
  induction l as [|y l IH]; intros Hz Hx.
  - rewrite app_nil_l, del_first_cons. by rewrite decide_True.
  - rewrite count_key_cons in Hz. rewrite <-app_comm_cons, del_first_cons.
    destruct (decide (has_key n project y)); [done|]. by rewrite IH.
Qed.







(** X5: applying an entity a second time, committed, to a collection that
    stored its key at most once changes nothing more: cache and store hold
    the snapshot that the first call left. *)
Theorem apply_entity_twice_is_apply_once :
  ∀ now now' entity project r s r1,
    is_valid entity = true →
    _prepare_registry_for_changes now r = (Return (Some s), r1) →
    (count_key (name entity) project (entities s) ≤ 1)%nat →
    let r2 := (apply_entity now entity project true r).2 in
    let r3 := (apply_entity now' entity project true r2).2 in
    cached_registry_proto r3 = cached_registry_proto r2 ∧
    stored (registry_store r3) = stored (registry_store r2).
Proof.
  intros now now' entity project r s r1 Hv Hprep Hu r2 r3. unfold r3, r2.
  rewrite (apply_entity_run now entity project true r s r1) by done. simpl.
  set (s2 := set_entities _ s).
  destruct (prepare_synced now' (with_stored s2 (with_snapshot s2 r1)) s2)
    as (r1' & Hprep' & _); [done..|].
  rewrite (apply_entity_run now' entity project true _ s2 r1') by done. simpl.
  rewrite del_first_app_last; [done| |done]. by apply count_key_del_first_same.
Qed.



(** ** What the operations persist *)

(** How an operation ends: it raised before preparing, or it raised or
    returned on the prepared registry, or it returned after turning the
    working snapshot into another. *)
Lemma run_op_cases o r :
  ∃ r1, stored (registry_store r1) = stored (registry_store r) ∧
        ((∃ e, run_op o r = (Raise e, r)) ∨
         (∃ e, run_op o r = (Raise e, r1)) ∨
         run_op o r = (Return tt, r1) ∨
         ∃ s', run_op o r = (Return tt, finish (op_commit o) s' r1)).
Proof.
  destruct o as [now e p c|now fs p c|now fv p c|now fv p st en c|now n p c|now n p c|now n p c];
    simpl;
    destruct (prepare_registry_for_changes_total now r) as (s & r1 & Hprep & _ & Hst & _);
    exists r1; (split; [done|]).
  - destruct (is_valid e) eqn:Hv.
    + rewrite (apply_entity_run now e p c r s r1) by done. eauto 10.
    + left. exists ValueError. unfold apply_entity, check, bind. by rewrite Hv.
  - rewrite (apply_feature_service_run now fs p c r s r1) by done. eauto 10.
  - destruct (ensure_valid fv) eqn:Hv.
    2: { left. exists ValueError. unfold apply_feature_view, check, bind. by rewrite Hv. }
    destruct (_existing_feature_view_names_to_fvs s !! name (fv_fco fv)) as [[c' x]|] eqn:Hl.
    1: destruct (decide (c' = fv_class fv)) as [->|Hne].
    2: { rewrite (apply_feature_view_conflict now fv p c r s r1 c' x) by done. eauto 10. }
    all: assert (no_conflict fv s) as Hn by (unfold no_conflict; by rewrite Hl).
    all: destruct (list_find (has_key (name (fv_fco fv)) p) (views_of (fv_class fv) s))
           as [[idx existing]|] eqn:Hf.
    all: try destruct (fv_eqb {| fv_class := fv_class fv; fv_fco := from_proto existing |}
                              (stamp_created now fv)) eqn:He.
    all: try (rewrite (apply_feature_view_unchanged now fv p c r s r1 idx existing) by done;
              by eauto 10).
    all: rewrite (apply_feature_view_run now fv p c r s r1);
           [by eauto 10|done..|intros idx' existing' Hf'; rewrite Hf in Hf'; by simplify_eq].
  - destruct (list_find (has_key (name fv) p) (feature_views s)) as [[idx x]|] eqn:Hf.
    + rewrite (apply_materialization_found now fv p st en c r s r1 idx x) by done. eauto 10.
    + rewrite (apply_materialization_missing now fv p st en c r s r1) by done. eauto 10.
  - destruct (list_find (has_key n p) (entities s)) as [[idx x]|] eqn:Hf.
    + rewrite (delete_entity_found now n p c r s r1 idx x) by done. eauto 10.
    + rewrite (delete_entity_missing now n p c r s r1) by done. eauto 10.
  - destruct (list_find (has_key n p) (feature_views s)) as [[idx x]|] eqn:Hf.
    + rewrite (delete_feature_view_found now n p c r s r1 idx x) by done. eauto 10.
    + destruct (list_find (has_key n p) (request_feature_views s)) as [[idx x]|] eqn:Hf'.
      * rewrite (delete_feature_view_found_request now n p c r s r1 idx x) by done. eauto 10.
      * rewrite (delete_feature_view_missing now n p c r s r1) by done. eauto 10.
  - destruct (list_find (has_key n p) (feature_services s)) as [[idx x]|] eqn:Hf.
    + rewrite (delete_feature_service_found now n p c r s r1 idx x) by done. eauto 10.
    + rewrite (delete_feature_service_missing now n p c r s r1) by done. eauto 10.
Qed.

(** X8: an operation called with [commit=False] leaves the stored
    snapshot as it was, and so does an operation that raises, whatever its
    [commit]; after an operation that returns, the stored snapshot is the
    one stored before or the one now cached. *)
Theorem operations_persist_only_on_commit :
  ∀ o r,
    (op_commit o = false →
     stored (registry_store (run_op o r).2) = stored (registry_store r)) ∧
    (∀ e, (run_op o r).1 = Raise e →
          stored (registry_store (run_op o r).2) = stored (registry_store r)) ∧
    ((run_op o r).1 = Return tt →
     stored (registry_store (run_op o r).2) = stored (registry_store r) ∨
     stored (registry_store (run_op o r).2) = cached_registry_proto (run_op o r).2).
Proof.
  intros o r.
  destruct (run_op_cases o r) as (r1 & Hst & [[e ->]|[[e ->]|[->|[s' ->]]]]); simpl.
  - auto.
  - auto.
  - auto.
  - split; [by intros ->|]. split; [done|].
    intros _. destruct (op_commit o); simpl; auto.
Qed.

(** ** The shared name space of the feature view classes *)

Lemma views_of_set_views_of c c' l s :
  views_of c' (set_views_of c l s) = if decide (c' = c) then l else views_of c' s.
Proof. by destruct c, c'. Qed.

Lemma elem_of_del_first n project l x : x ∈ del_first n project l → x ∈ l.
Proof.
  induction l as [|y l IH]; [done|].
  rewrite del_first_cons. destruct (decide (has_key n project y)).
  - apply list_elem_of_further.
  - rewrite !elem_of_cons. intros [->|Hx]; [by left|right; by apply IH].
Qed.

Lemma variant_names_disjoint_stamped_empty :
  variant_names_disjoint stamped_empty_registry_proto.
Proof. intros c1 c2 x y Hx. destruct c1; by apply elem_of_nil in Hx. Qed.

Lemma variant_names_disjoint_same_views s s' :
  (∀ c, views_of c s' = views_of c s) →
  variant_names_disjoint s → variant_names_disjoint s'.
Proof. intros Hv Hd c1 c2 x y. rewrite !Hv. apply Hd. Qed.

(** The views of one class are replaced by views that were there, or that
    bear a name which no other class uses. *)
Lemma variant_names_disjoint_replace c l' n s :
  variant_names_disjoint s →
  (∀ x, x ∈ l' → x ∈ views_of c s ∨ spec_name x = n) →
  (∀ c2 y, y ∈ views_of c2 s → spec_name y = n → c2 = c) →
  variant_names_disjoint (set_views_of c l' s).
Proof.
  intros Hd Hl Hn c1 c2 x y. rewrite !views_of_set_views_of.
  destruct (decide (c1 = c)) as [->|H1], (decide (c2 = c)) as [->|H2]; [done| | |by apply Hd].
  - intros Hx Hy Heq. destruct (Hl x Hx) as [Hx'|Hx'].
    + by apply (Hd c c2 x y).
    + symmetry. apply (Hn c2 y Hy). congruence.
  - intros Hx Hy Heq. destruct (Hl y Hy) as [Hy'|Hy'].
    + by apply (Hd c1 c x y).
    + apply (Hn c1 x Hx). congruence.
Qed.

(** When the name check passes in a snapshot with disjoint names, only the
    incoming view's own class uses its name. *)
Lemma no_conflict_own_class fv s :
  variant_names_disjoint s → no_conflict fv s →
  ∀ c2 y, y ∈ views_of c2 s → spec_name y = name (fv_fco fv) → c2 = fv_class fv.
Proof.
  intros Hd Hn c2 y Hy Hname. unfold no_conflict in Hn.
  destruct (_existing_feature_view_names_to_fvs s !! name (fv_fco fv)) as [[c x]|] eqn:Hl.
  - subst c. apply existing_names_Some in Hl as [Hx Hxn].
    apply (Hd c2 (fv_class fv) y x); [done..|congruence].
  - by destruct (existing_names_None s _ c2 y Hl Hy).
Qed.

Lemma finish_names_disjoint do_commit s r :
  variant_names_disjoint s → registry_names_disjoint r →
  registry_names_disjoint (finish do_commit s r).
Proof.
  intros Hu [Hcache Hstore]. destruct do_commit; split; simpl; intros s'; try apply Hstore;
    by intros [= <-].
Qed.

Lemma prepare_names_disjoint now r s r1 :
  registry_names_disjoint r →
  _prepare_registry_for_changes now r = (Return (Some s), r1) →
  variant_names_disjoint s ∧ registry_names_disjoint r1.
Proof.
  intros [Hcache Hstore] Hprep.
  destruct (prepare_registry_for_changes_total now r) as (s' & r1' & Heq & Hc & Hs & Hfrom).
  rewrite Hprep in Heq. injection Heq as <- <-.
  assert (variant_names_disjoint s) as Hu.
  { destruct Hfrom as [?|[?| ->]]; [by apply Hcache|by apply Hstore|].
    apply variant_names_disjoint_stamped_empty. }
  split; [done|]. split.
  - intros s'. rewrite Hc. by intros [= <-].
  - intros s'. rewrite Hs. apply Hstore.
Qed.

Lemma run_op_names_disjoint o r :
  registry_names_disjoint r → registry_names_disjoint (run_op o r).2.
Proof.
  intros Hr.
  destruct o as [now e p c|now fs p c|now fv p c|now fv p st en c|now n p c|now n p c|now n p c];
    simpl;
    destruct (prepare_registry_for_changes_total now r) as (s & r1 & Hprep & _);
    destruct (prepare_names_disjoint now r s r1 Hr Hprep) as [Hs Hr1].
  - destruct (is_valid e) eqn:Hv.
    + rewrite (apply_entity_run now e p c r s r1) by done. simpl.
      apply finish_names_disjoint; [|done].
      apply (variant_names_disjoint_same_views s); [|done]. by intros [].
    + unfold apply_entity, check, bind. rewrite Hv. done.
  - rewrite (apply_feature_service_run now fs p c r s r1) by done. simpl.
    apply finish_names_disjoint; [|done].
    apply (variant_names_disjoint_same_views s); [|done]. by intros [].
  - destruct (ensure_valid fv) eqn:Hv.
    2: { unfold apply_feature_view, check, bind. rewrite Hv. done. }
    destruct (_existing_feature_view_names_to_fvs s !! name (fv_fco fv)) as [[c' x]|] eqn:Hl.
    1: destruct (decide (c' = fv_class fv)) as [->|Hne].
    2: { by rewrite (apply_feature_view_conflict now fv p c r s r1 c' x). }
    all: assert (no_conflict fv s) as Hn by (unfold no_conflict; by rewrite Hl).
    all: destruct (apply_feature_view_state now fv p c r s r1 Hv Hprep) as [-> | ->]; [done|].
    all: apply finish_names_disjoint; [|done].
    all: apply (variant_names_disjoint_replace _ _ (name (fv_fco fv))); [done| |].
    all: try by apply no_conflict_own_class.
    all: intros y Hy; apply elem_of_app in Hy as [Hy|Hy];
           [left; by eapply elem_of_del_first|right].
    all: apply list_elem_of_singleton in Hy as ->; simpl; apply stamp_created_name.
  - destruct (list_find (has_key (name fv) p) (feature_views s)) as [[idx x]|] eqn:Hf.
    + rewrite (apply_materialization_found now fv p st en c r s r1 idx x) by done. simpl.
      apply finish_names_disjoint; [|done].
      apply list_find_Some in Hf as (Hin & [Hxn _] & _).
      apply list_elem_of_lookup_2 in Hin.
      apply (variant_names_disjoint_replace FeatureView _ (name fv)); [done| |].
      * intros y Hy. apply elem_of_app in Hy as [Hy|Hy].
        -- left. simpl. by eapply list_elem_of_delete_inv.
        -- right. by apply list_elem_of_singleton in Hy as ->.
      * intros c2 y Hy Hyn. apply (Hs c2 FeatureView y x); [done..|congruence].
    + by rewrite (apply_materialization_missing now fv p st en c r s r1).
  - destruct (list_find (has_key n p) (entities s)) as [[idx x]|] eqn:Hf.
    + rewrite (delete_entity_found now n p c r s r1 idx x) by done. simpl.
      apply finish_names_disjoint; [|done].
      apply (variant_names_disjoint_same_views s); [|done]. by intros [].
    + by rewrite (delete_entity_missing now n p c r s r1).
  - destruct (list_find (has_key n p) (feature_views s)) as [[idx x]|] eqn:Hf.
    + rewrite (delete_feature_view_found now n p c r s r1 idx x) by done. simpl.
      apply finish_names_disjoint; [|done].
      apply (variant_names_disjoint_replace FeatureView _ n); [done| |].
      * intros y Hy. left. simpl. by eapply list_elem_of_delete_inv.
      * intros c2 y Hy Hyn. apply list_find_Some in Hf as (Hin & [Hxn _] & _).
        apply list_elem_of_lookup_2 in Hin.
        apply (Hs c2 FeatureView y x); [done..|congruence].
    + destruct (list_find (has_key n p) (request_feature_views s)) as [[idx x]|] eqn:Hf'.
      * rewrite (delete_feature_view_found_request now n p c r s r1 idx x) by done. simpl.
        apply finish_names_disjoint; [|done].
        apply (variant_names_disjoint_replace RequestFeatureView _ n); [done| |].
        -- intros y Hy. left. simpl. by eapply list_elem_of_delete_inv.
        -- intros c2 y Hy Hyn. apply list_find_Some in Hf' as (Hin & [Hxn _] & _).
           apply list_elem_of_lookup_2 in Hin.
           apply (Hs c2 RequestFeatureView y x); [done..|congruence].
      * by rewrite (delete_feature_view_missing now n p c r s r1).
  - destruct (list_find (has_key n p) (feature_services s)) as [[idx x]|] eqn:Hf.
    + rewrite (delete_feature_service_found now n p c r s r1 idx x) by done. simpl.
      apply finish_names_disjoint; [|done].
      apply (variant_names_disjoint_same_views s); [|done]. by intros [].
    + by rewrite (delete_feature_service_missing now n p c r s r1).
Qed.

(** X9: the name check keeps the name space of the feature views shared:
    from a registry in whose cached and stored snapshots no name is used by
    feature views of two classes, whatever their projects, every state
    reached by the operations has a cached snapshot of which the same
    holds. *)
Theorem reachable_states_keep_names_disjoint :
  ∀ r0 r,
    registry_names_disjoint r0 →
    reachable r0 r →
    ∀ s, cached_registry_proto r = Some s →
      ∀ c1 c2 x y,
        x ∈ views_of c1 s → y ∈ views_of c2 s → spec_name x = spec_name y → c1 = c2.
Proof.
  intros r0 r H0 Hreach.
  assert (registry_names_disjoint r) as [Hcache _].
  { induction Hreach; [done|]. by apply run_op_names_disjoint. }
  intros s Hs. apply (Hcache s Hs).
Qed.

(** X10: on a working snapshot in which no name is used by feature views
    of two classes, [apply_feature_view] of a valid view raises
    [ConflictingFeatureViewNames] exactly when a feature view of another
    class bears its name, in whatever project. *)
Theorem conflict_exactly_when_name_taken_by_other_class :
  ∀ now fv project do_commit r s r1,
    ensure_valid fv = true →
    _prepare_registry_for_changes now r = (Return (Some s), r1) →
    variant_names_disjoint s →
    (∃ c obj, obj ∈ views_of c s ∧ spec_name obj = name (fv_fco fv) ∧ c ≠ fv_class fv) ↔
    apply_feature_view now fv project do_commit r =
      (Raise (ConflictingFeatureViewNames (name (fv_fco fv))), r1).
Proof.
  intros now fv project do_commit r s r1 Hv Hprep Hd. split.
  - intros (c & obj & Hin & Hname & Hne).
    destruct (_existing_feature_view_names_to_fvs s !! name (fv_fco fv)) as [[c' x]|] eqn:Hl.
    + eapply apply_feature_view_conflict; [done..|].
      intros ->. apply existing_names_Some in Hl as [Hx Hxn].
      apply Hne. apply (Hd c (fv_class fv) obj x); [done..|congruence].
    + by destruct (existing_names_None s _ c obj Hl Hin).
  - intros Hraise.
    destruct (_existing_feature_view_names_to_fvs s !! name (fv_fco fv)) as [[c' x]|] eqn:Hl.
    1: destruct (decide (c' = fv_class fv)) as [->|Hne].
    2: { apply existing_names_Some in Hl as [Hx Hxn]. eauto. }
    all: assert (no_conflict fv s) as Hn by (unfold no_conflict; by rewrite Hl).
    all: destruct (list_find (has_key (name (fv_fco fv)) project) (views_of (fv_class fv) s))
           as [[idx existing]|] eqn:Hf.
    all: try destruct (fv_eqb {| fv_class := fv_class fv; fv_fco := from_proto existing |}
                              (stamp_created now fv)) eqn:He.
    all: try (rewrite (apply_feature_view_unchanged now fv project do_commit r s r1
                         idx existing) in Hraise by done; discriminate).
    all: rewrite (apply_feature_view_run now fv project do_commit r s r1) in Hraise;
           [discriminate|done..|
            intros idx' existing' Hf'; rewrite Hf in Hf'; by simplify_eq].
Qed.

(** ** Initialization, commit, refresh, teardown, infra *)




(** X14: [teardown] erases the store and leaves the cache: reads that
    allow the cache are still served from it while it has not expired, reads
    that do not allow it raise [FileNotFoundError], and a later [commit]
    stores the cached snapshot again. *)
Theorem teardown_leaves_the_cache :
  ∀ now r s,
    cached_registry_proto r = Some s →
    expired now r = false →
    teardown r = (Return tt, (teardown r).2) ∧
    stored (registry_store (teardown r).2) = None ∧
    _get_registry_proto now true (teardown r).2 = (Return s, (teardown r).2) ∧
    _get_registry_proto now false (teardown r).2 =
      (Raise FileNotFoundError, count_load (teardown r).2) ∧
    stored (registry_store (commit (teardown r).2).2) = Some s.
Proof.
  intros now r s Hc He. split; [done|]. split; [done|]. split; [|split].
  - apply get_registry_proto_cached; [done|].
    unfold expired in *. simpl. by rewrite Hc in *.
  - by apply get_registry_proto_missing.
  - unfold commit, bind, get_self. simpl. by rewrite Hc.
Qed.

(** ** Selection of the registry store class *)

Lemma rsplit_dot_Some s m k :
  rsplit_dot s = Some (m, k) → s = m +:+ "." +:+ k ∧ rsplit_dot k = None.
Proof.
  revert m. induction s as [|c s IH]; intros m; simpl; [done|].
  destruct (rsplit_dot s) as [[m' k']|] eqn:Hs.
  - intros [= <- <-]. destruct (IH m' eq_refl) as [-> Hk]. done.
  - destruct (decide (String c EmptyString = ".")) as [Hc|_]; [|done].
    intros [= <- <-]. by injection Hc as ->.
Qed.

(** A text that ends with a suffix without dot has that suffix after its
    last dot. *)
Lemma endswith_after_last_dot t suffix m k :
  rsplit_dot suffix = None →
  endswith t suffix = true →
  rsplit_dot t = Some (m, k) →
  endswith k suffix = true.
Proof.
  intros Hsuf. revert m. induction t as [|c t IH]; intros m; simpl; [done|].
  destruct (decide (String c t = suffix)) as [<-|_].
  { simpl in Hsuf. intros _ Hsplit. by rewrite Hsuf in Hsplit. }
  intros Ht. destruct (rsplit_dot t) as [[m' k']|] eqn:Hs.
  - intros [= <- <-]. by apply (IH m').
  - destruct (decide (String c EmptyString = ".")); [|done]. by intros [= <- <-].
Qed.

Lemma REGISTRY_STORE_CLASS_FOR_TYPE_Some t full :
  REGISTRY_STORE_CLASS_FOR_TYPE !! t = Some full →
  full = "feast.infra.gcp.GCSRegistryStore" ∨
  full = "feast.infra.aws.S3RegistryStore" ∨
  full = "feast.infra.local.LocalRegistryStore".
Proof.
  unfold REGISTRY_STORE_CLASS_FOR_TYPE. rewrite !lookup_insert, lookup_empty.
  repeat case_decide; intros [=]; auto.
Qed.

(** X15: [get_registry_store_class_from_type] raises on a type name that
    does not end with "RegistryStore".  When it reaches the importer, the
    class name it passes has no dot and ends with "RegistryStore", and for a
    type that is not one of the three known names the module and the class
    are the parts of the type before and after its last dot.  Such a type
    without any dot makes the unpacking of [rsplit] fail with ValueError. *)
Theorem store_class_from_type_splits_at_last_dot :
  ∀ t,
    (endswith t "RegistryStore" = false →
     get_registry_store_class_from_type t = RaiseException) ∧
    (∀ m k,
       get_registry_store_class_from_type t = GetClassFromType m k →
       endswith k "RegistryStore" = true ∧
       rsplit_dot k = None ∧
       (REGISTRY_STORE_CLASS_FOR_TYPE !! t = None → t = m +:+ "." +:+ k)) ∧
    (endswith t "RegistryStore" = true →
     REGISTRY_STORE_CLASS_FOR_TYPE !! t = None →
     rsplit_dot t = None →
     get_registry_store_class_from_type t = RaiseValueError).
Proof.
  intros t. unfold get_registry_store_class_from_type. split; [|split].
  - by intros ->.
  - intros m k. destruct (endswith t "RegistryStore") eqn:He; simpl; [|done].
    destruct (REGISTRY_STORE_CLASS_FOR_TYPE !! t) as [full|] eqn:Hl.
    + apply REGISTRY_STORE_CLASS_FOR_TYPE_Some in Hl as [->|[->| ->]];
        vm_compute; intros [= <- <-]; done.
    + destruct (rsplit_dot t) as [[m' k']|] eqn:Hs; [|done].
      intros [= <- <-]. split; [|by apply rsplit_dot_Some in Hs as [? ?]].
      by apply (endswith_after_last_dot t "RegistryStore" m').
  - by intros -> -> ->.
Qed.

(** X16: [get_registry_store_class_from_scheme] resolves the schemes "gs",
    "s3", "file" and the empty scheme to the GCS, S3 and local store classes
    of their modules, and raises on every other scheme; the type names of
    its table all pass the check of [get_registry_store_class_from_type]. *)
Theorem store_class_from_scheme_table :
  ∀ scheme,
    get_registry_store_class_from_scheme scheme =
      if decide (scheme = "gs") then GetClassFromType "feast.infra.gcp" "GCSRegistryStore"
      else if decide (scheme = "s3") then GetClassFromType "feast.infra.aws" "S3RegistryStore"
      else if decide (scheme = "file" ∨ scheme = "")
           then GetClassFromType "feast.infra.local" "LocalRegistryStore"
      else RaiseException.
Proof.
  intros scheme.
  destruct (decide (scheme = "gs")) as [->|Hgs]; [by vm_compute|].
  destruct (decide (scheme = "s3")) as [->|Hs3]; [by vm_compute|].
  destruct (decide (scheme = "file" ∨ scheme = "")) as [[->| ->]|Hlocal];
    [by vm_compute..|].
  unfold get_registry_store_class_from_scheme, REGISTRY_STORE_CLASS_FOR_SCHEME.
  rewrite !lookup_insert_ne, lookup_empty; [done|intros <-; auto..].
Qed.

(** ** Cached reads, feature views, diff *)

(** With a TTL of 0 the prepared registry never expires. *)
Lemma prepared_never_expires now now' r s r1 f :
  cached_registry_proto_ttl r = 0 →
  _prepare_registry_for_changes now r = (Return (Some s), r1) →
  expired now' (with_snapshot (f s) r1) = false.
Proof.
  intros Httl Hprep. destruct (expired now r) eqn:He.
  - destruct (stored (registry_store r)) as [s0|] eqn:Hs.
    + rewrite (prepare_load now r s0) in Hprep by done. injection Hprep as <- <-.
      unfold expired. simpl. by rewrite Httl.
    + rewrite (prepare_missing now r) in Hprep by done. injection Hprep as <- <-.
      unfold expired. simpl. by rewrite Httl.
  - assert (∃ s', cached_registry_proto r = Some s') as [s' Hc].
    { unfold expired in He. destruct (cached_registry_proto r); [eauto|done]. }
    rewrite (prepare_cached now r s') in Hprep by done. injection Hprep as <- <-.
    unfold expired in *. simpl. rewrite Hc in He.
    destruct (cached_registry_proto_created r); [|done]. by rewrite Httl.
Qed.

(** X17: with a TTL of 0, an [apply_entity] that does not commit is seen
    by the reads that allow the cache: at any later time [get_entity] with
    [allow_cache=True] returns the applied entity, without a call of the
    store, while the stored snapshot is the one stored before. *)
Theorem uncommitted_apply_is_seen_by_cached_read :
  ∀ now now' entity project r s r1,
    cached_registry_proto_ttl r = 0 →
    is_valid entity = true →
    _prepare_registry_for_changes now r = (Return (Some s), r1) →
    (count_key (name entity) project (entities s) ≤ 1)%nat →
    let r2 := (apply_entity now entity project false r).2 in
    get_entity now' (name entity) project true r2 = (Return entity, r2) ∧
    stored (registry_store r2) = stored (registry_store r).
Proof.
  intros now now' entity project r s r1 Httl Hv Hprep Hu r2. unfold r2.
  rewrite (apply_entity_run now entity project false r s r1) by done. simpl. split.
  - set (s2 := set_entities _ s). unfold get_entity, bind.
    rewrite (get_registry_proto_cached now' (with_snapshot s2 r1) s2);
      [|done|by apply (prepared_never_expires now now' r s r1
                         (λ s, set_entities
                                 (del_first (name entity) project (entities s) ++
                                  [set_project project (to_proto entity)]) s))].
    simpl. rewrite list_find_after_replace by done. simpl.
    by rewrite from_proto_set_project.
  - by apply prepare_keeps_stored in Hprep.
Qed.



Lemma diff_kept_returns l object_type diff kept :
  Forall (λ e, spec_name e ∈ spec_name <$> l) kept →
  ∃ diff', foldl (diff_kept l object_type) (Return diff) kept = Return diff'.
Proof.
  intros Hk. revert diff. induction Hk as [|e kept He _ IH]; intros diff; [by eexists|].
  simpl.
  destruct (filter (λ _e, spec_name _e = spec_name e) l) as [|x l'] eqn:Hfil.
  - exfalso. apply list_elem_of_fmap in He as (y & Hy & Hin).
    eapply (filter_nil_not_elem_of _ _ y Hfil); done.
  - simpl. apply IH.
Qed.

(** X19: [Registry.diff_between] never fails on its index [[0]]: every
    object to keep has its name in the current collection, so that the list
    of the current objects of that name is not empty, and the diff of any two
    snapshots returns a change set. *)
Theorem diff_between_returns :
  ∀ current_registry new_registry,
    ∃ diff, Registry_diff_between current_registry new_registry = Return diff.
Proof.
  intros current_registry new_registry. unfold Registry_diff_between.
  generalize (@nil FcoDiff). induction object_types as [|object_type types IH];
    intros diff; [by eexists|].
  cbn [foldl].
  assert (∃ diff', diff_object_type current_registry new_registry (Return diff) object_type =
                     Return diff') as [diff' ->]; [|apply IH].
  unfold diff_object_type, tag_proto_objects_for_keep_delete_add. cbv beta iota zeta.
  apply diff_kept_returns. apply Forall_forall. intros e He.
  by apply list_elem_of_filter in He as [He _].
Qed.

End Registry.

(** * Instances and counterexamples *)



(** Instance of C5 on a registry with nothing cached and an empty store. *)
Lemma load_not_found_is_bootstrap_only_when_preparing_witness :
  stored (registry_store blank_registry) = None ∧
  expired 5 blank_registry = true ∧
  _prepare_registry_for_changes 5 blank_registry =
    (Return (Some stamped_empty_registry_proto),
     with_cache stamped_empty_registry_proto 5 (count_load blank_registry)) ∧
  _get_registry_proto 5 true blank_registry =
    (Raise FileNotFoundError, count_load blank_registry).
Proof.
  split; [reflexivity|]. split; [reflexivity|].
  destruct (load_not_found_is_bootstrap_only_when_preparing always_valid 5 blank_registry)
    as (Hprep & _ & _ & _ & Hget & _).
  - reflexivity.
  - reflexivity.
  - split; [exact Hprep|apply Hget].
Defined.

(** Counterexample to C1 as stated: the entity "driver" stored in project
    "p1" is applied again, unchanged.  [apply_entity] deletes the stored
    entry and appends the incoming one, so that the order of the collection
    changes. *)
Lemma apply_entity_moves_identical_entry :
  let s := sample_snapshot [sample_proto "driver" "p1" "a"; sample_proto "customer" "p1" "a"]
                           [] [] [] [] in
  let r := sample_registry s in
  list_find (has_key "driver" "p1") (entities s) =
    Some (0%nat, set_project "p1" (to_proto (sample_fco "driver" "a"))) ∧
  apply_entity always_valid 10 (sample_fco "driver" "a") "p1" false r =
    (Return tt,
     with_snapshot
       (set_entities [sample_proto "customer" "p1" "a"; sample_proto "driver" "p1" "a"] s) r) ∧
  cached_registry_proto
    (apply_entity always_valid 10 (sample_fco "driver" "a") "p1" false r).2 ≠
    cached_registry_proto r.
Proof.
  split; [reflexivity|]. split; [reflexivity|]. vm_compute. discriminate.
Qed.

(** Instance of C1 as amended: the feature view "rides" stored in project
    "p1" is applied again, unchanged, and the registry stays as it was. *)
Lemma apply_of_identical_object_witness :
  let s := sample_snapshot [] [sample_proto "rides" "p1" "a"] [] [] [] in
  let r := sample_registry s in
  apply_feature_view always_valid same_definition 10
    (sample_view FeatureView "rides" "a") "p1" true r = (Return tt, r).
Proof.
  intros s r.
  destruct (proj1 (apply_of_identical_object always_valid always_valid same_definition)
              10 (sample_view FeatureView "rides" "a") "p1" true r s r 0%nat
              (sample_proto "rides" "p1" "a"))
    as (_ & _ & Hret).
  - reflexivity.
  - reflexivity.
  - reflexivity.
  - reflexivity.
  - apply Hret. vm_compute. reflexivity.
Defined.

(** Counterexample to C2 as stated: the name "rides" is used by a feature
    view of project "p1" and by an on-demand feature view of project "p2".
    In the name table the feature view takes the place of the on-demand
    one, so that applying a feature view named "rides" does not raise, and
    the collection is changed. *)
Lemma apply_feature_view_shadowed_conflict :
  let s := sample_snapshot [] [sample_proto "rides" "p1" "a"]
                           [sample_proto "rides" "p2" "b"] [] [] in
  let r := sample_registry s in
  let fv := sample_view FeatureView "rides" "c" in
  sample_proto "rides" "p2" "b" ∈ views_of OnDemandFeatureView s ∧
  OnDemandFeatureView ≠ fv_class fv ∧
  apply_feature_view always_valid same_definition 10 fv "p1" false r =
    (Return tt,
     with_snapshot
       (set_feature_views [set_project "p1" (to_proto (fv_fco (stamp_created 10 fv)))] s) r).
Proof.
  split; [apply list_elem_of_here|]. split; [discriminate|]. vm_compute. reflexivity.
Qed.

(** Instance of C2 as amended: "rides" is a feature view of project "p1"
    and a request feature view of project "p3"; a feature view of that name
    is applied.  The request feature view comes last in the merge, and the
    call raises, whereas a request feature view of that name is accepted. *)
Lemma apply_feature_view_conflicting_name_witness :
  let s := sample_snapshot [] [sample_proto "rides" "p1" "a"] []
                           [sample_proto "rides" "p3" "b"] [] in
  let r := sample_registry s in
  apply_feature_view always_valid same_definition 10
    (sample_view FeatureView "rides" "c") "p1" true r =
    (Raise (ConflictingFeatureViewNames "rides"), r) ∧
  apply_feature_view always_valid same_definition 10
    (sample_view RequestFeatureView "rides" "c") "p1" true r ≠
    (Raise (ConflictingFeatureViewNames "rides"), r).
Proof.
  intros s r.
  destruct (apply_feature_view_conflicting_name always_valid same_definition 10
              (sample_view FeatureView "rides" "c") "p1" true r s r eq_refl eq_refl)
    as ([Hraise _] & _ & _).
  destruct (apply_feature_view_conflicting_name always_valid same_definition 10
              (sample_view RequestFeatureView "rides" "c") "p1" true r s r eq_refl eq_refl)
    as ([_ Honly] & _ & _).
  split.
  - apply Hraise. exists RequestFeatureView, (sample_proto "rides" "p3" "b").
    split; [apply list_elem_of_here|]. split; [reflexivity|]. split; [discriminate|].
    intros c' obj' Hrank. destruct c'; simpl in Hrank; lia.
  - intros Heq. destruct (Honly Heq) as (c & obj & Hin & Hname & Hne & Htop).
    destruct c; simpl in Hin.
    + apply (Htop RequestFeatureView (sample_proto "rides" "p3" "b")).
      * simpl. lia.
      * apply list_elem_of_here.
      * reflexivity.
    + exact (proj1 (elem_of_nil obj) Hin).
    + apply Hne. reflexivity.
Defined.

(** Counterexample to C10 as stated: "rides" is a feature view of project
    "p1" and also a request feature view of project "p3".  Applying a
    request feature view named "rides" to project "p2" does not raise: the
    name table maps "rides" to the request feature view, and the new view
    is appended. *)
Lemma apply_request_feature_view_shadowed_conflict :
  let s := sample_snapshot [] [sample_proto "rides" "p1" "a"] []
                           [sample_proto "rides" "p3" "b"] [] in
  let r := sample_registry s in
  let fv := sample_view RequestFeatureView "rides" "c" in
  sample_proto "rides" "p1" "a" ∈ views_of FeatureView s ∧
  FeatureView ≠ fv_class fv ∧
  apply_feature_view always_valid same_definition 10 fv "p2" false r =
    (Return tt,
     with_snapshot
       (set_request_feature_views
          [sample_proto "rides" "p3" "b";
           set_project "p2" (to_proto (fv_fco (stamp_created 10 fv)))] s) r).
Proof.
  split; [apply list_elem_of_here|]. split; [discriminate|]. vm_compute. reflexivity.
Qed.

(** Instance of C10 as amended: "rides" is an on-demand feature view of
    project "p1"; a feature view named "rides" is applied to project "p2",
    where nothing is stored. *)
Lemma conflicting_names_ignore_project_witness :
  let s := sample_snapshot [] [] [sample_proto "rides" "p1" "b"] [] [] in
  let r := sample_registry s in
  count_key "rides" "p2" (on_demand_feature_views s) = 0%nat ∧
  apply_feature_view always_valid same_definition 10
    (sample_view FeatureView "rides" "c") "p2" true r =
    (Raise (ConflictingFeatureViewNames "rides"), r).
Proof.
  intros s r. split; [reflexivity|].
  apply (conflicting_names_ignore_project always_valid same_definition 10
           (sample_view FeatureView "rides" "c") "p2" true r s r
           OnDemandFeatureView (sample_proto "rides" "p1" "b") "p1").
  - reflexivity.
  - reflexivity.
  - apply list_elem_of_here.
  - reflexivity.
  - reflexivity.
  - discriminate.
  - simpl. apply not_elem_of_nil.
Defined.

(** Counterexample to C6 as stated: the cache, loaded at time 0 with a
    TTL of 60 seconds, holds the entity "driver" of project "p1", which was
    not committed to the store.  At time 100 [delete_entity] reloads the
    stored snapshot: it raises [EntityNotFoundException] although the cached
    snapshot held the entry, and the cached snapshot is replaced. *)
Lemma delete_entity_raises_on_reloaded_snapshot :
  let cached := sample_snapshot [sample_proto "driver" "p1" "a"] [] [] [] [] in
  let stored_snapshot := sample_snapshot [] [] [] [] [] in
  let r := stale_registry cached stored_snapshot in
  cached_registry_proto r = Some cached ∧
  count_key "driver" "p1" (entities cached) = 1%nat ∧
  delete_entity 100 "driver" "p1" true r =
    (Raise (EntityNotFoundException "driver" "p1"),
     with_cache stored_snapshot 100 (count_load r)) ∧
  cached_registry_proto (delete_entity 100 "driver" "p1" true r).2 ≠
    cached_registry_proto r.
Proof.
  split; [reflexivity|]. split; [reflexivity|]. split; [reflexivity|].
  vm_compute. discriminate.
Qed.

(** Instance of C6 as amended: deleting an entity that is not stored and
    one that is, on a live cache, and deleting from an expired cache. *)
Lemma delete_raises_exactly_when_absent_witness :
  let s := sample_snapshot [sample_proto "driver" "p1" "a"] [] [] [] [] in
  let r := sample_registry s in
  let stale := stale_registry s (sample_snapshot [] [] [] [] []) in
  delete_entity 10 "ghost" "p1" true r = (Raise (EntityNotFoundException "ghost" "p1"), r) ∧
  delete_entity 10 "driver" "p1" false r = (Return tt, with_snapshot (set_entities [] s) r) ∧
  delete_entity 100 "driver" "p1" true stale =
    (Raise (EntityNotFoundException "driver" "p1"),
     with_cache (sample_snapshot [] [] [] [] []) 100 (count_load stale)).
Proof.
  intros s r stale.
  destruct (delete_raises_exactly_when_absent 10 "ghost" "p1" true r s r)
    as (_ & _ & _ & Habsent & _); [reflexivity|].
  destruct (delete_raises_exactly_when_absent 10 "driver" "p1" false r s r)
    as (_ & _ & _ & _ & Hpresent & _); [reflexivity|].
  destruct (delete_raises_exactly_when_absent 100 "driver" "p1" true stale
              (sample_snapshot [] [] [] [] [])
              (with_cache (sample_snapshot [] [] [] [] []) 100 (count_load stale)))
    as (_ & _ & _ & Hstale & _); [reflexivity|].
  split; [|split].
  - apply Habsent. reflexivity.
  - apply Hpresent. vm_compute. discriminate.
  - apply Hstale. reflexivity.
Defined.


(** Instance of C8: the state reached from a blank registry by applying
    the entity "driver" twice. *)
Lemma reachable_states_have_unique_keys_witness :
  let r := run_ops always_valid always_valid same_definition
             [ApplyEntity 1 (sample_fco "driver" "a") "p1" true;
              ApplyEntity 2 (sample_fco "driver" "b") "p1" true] blank_registry in
  let s := set_entities [sample_proto "driver" "p1" "b"] stamped_empty_registry_proto in
  cached_registry_proto r = Some s ∧
  (count_key "driver" "p1" (entities s) ≤ 1)%nat.
Proof.
  intros r s. split; [reflexivity|].
  apply (reachable_states_have_unique_keys always_valid always_valid same_definition
           blank_registry r).
  - split; intros s'; discriminate.
  - apply reachable_step, reachable_step, reachable_refl.
  - reflexivity.
Defined.


(** Counterexample to C3 as stated: a snapshot that holds the entity
    "driver" for project "p1" and for project "p2".  Entries are matched on
    the name alone and the current entry is the first of that name, so that
    the second "driver" is compared with the first, and the diff of the
    snapshot with itself holds an UPDATE record. *)
Lemma diff_between_self_with_shared_name :
  let s := sample_snapshot [sample_proto "driver" "p1" "a"; sample_proto "driver" "p2" "b"]
                           [] [] [] [] in
  Registry_diff_between s s =
    Return [ {| fco_name := "driver";
                fco_type := "entity";
                current_fco := Some (sample_proto "driver" "p1" "a");
                new_fco := Some (sample_proto "driver" "p2" "b");
                fco_property_diffs :=
                  [ {| property_name := "project"; val_existing := "p1";
                       val_declared := "p2" |};
                    {| property_name := "kind"; val_existing := "a";
                       val_declared := "b" |} ];
                transition_type := UPDATE |} ] ∧
  Registry_diff_between s s ≠ Return [].
Proof.
  assert (Registry_diff_between
            (sample_snapshot [sample_proto "driver" "p1" "a"; sample_proto "driver" "p2" "b"]
                             [] [] [] []) 
            (sample_snapshot [sample_proto "driver" "p1" "a"; sample_proto "driver" "p2" "b"]
                             [] [] [] []) =
          Return [ {| fco_name := "driver";
                      fco_type := "entity";
                      current_fco := Some (sample_proto "driver" "p1" "a");
                      new_fco := Some (sample_proto "driver" "p2" "b");
                      fco_property_diffs :=
                        [ {| property_name := "project"; val_existing := "p1";
                             val_declared := "p2" |};
                          {| property_name := "kind"; val_existing := "a";
                             val_declared := "b" |} ];
                      transition_type := UPDATE |} ]) as H by (vm_compute; reflexivity).
  simpl. split; [exact H|]. rewrite H. discriminate.
Qed.

(** Instance of C3 as amended: a snapshot with two entities of different
    names. *)
Lemma diff_between_self_is_empty_witness :
  let s := sample_snapshot [sample_proto "driver" "p1" "a"; sample_proto "customer" "p1" "a"]
                           [] [] [] [] in
  Registry_diff_between s s = Return [].
Proof.
  intros s. apply diff_between_self_is_empty; unfold distinct_names; simpl.
  - apply NoDup_cons. split; [|apply NoDup_singleton].
    intros H. apply list_elem_of_singleton in H. discriminate.
  - apply NoDup_nil_2.
  - apply NoDup_nil_2.
  - apply NoDup_nil_2.
  - apply NoDup_nil_2.
  - apply NoDup_nil_2.
Defined.

(** * Instances of the further properties *)





(** Instance of X5: "driver" is applied twice. *)
Lemma apply_entity_twice_is_apply_once_witness :
  let s := sample_snapshot [sample_proto "driver" "p1" "a"; sample_proto "customer" "p1" "a"]
                           [] [] [] [] in
  let r2 := (apply_entity always_valid 10 (sample_fco "driver" "a") "p1" true
               (sample_registry s)).2 in
  let r3 := (apply_entity always_valid 20 (sample_fco "driver" "a") "p1" true r2).2 in
  cached_registry_proto r3 = cached_registry_proto r2 ∧
  stored (registry_store r3) = stored (registry_store r2).
Proof.
  intros s.
  apply (apply_entity_twice_is_apply_once always_valid 10 20 (sample_fco "driver" "a") "p1"
           (sample_registry s) s (sample_registry s)).
  - reflexivity.
  - reflexivity.
  - vm_compute. lia.
Defined.



(** Instance of X8: an apply without commit leaves the store. *)
Lemma operations_persist_only_on_commit_witness :
  let s := sample_snapshot [sample_proto "customer" "p1" "a"] [] [] [] [] in
  let r := sample_registry s in
  stored (registry_store
    (run_op always_valid always_valid same_definition
       (ApplyEntity 10 (sample_fco "driver" "a") "p1" false) r).2) = Some s ∧
  stored (registry_store
    (run_op always_valid always_valid same_definition
       (DeleteEntity 10 "ghost" "p1" true) r).2) = Some s.
Proof.
  intros s r. split.
  - apply (proj1 (operations_persist_only_on_commit always_valid always_valid same_definition
                    (ApplyEntity 10 (sample_fco "driver" "a") "p1" false) r)).
    reflexivity.
  - apply (proj1 (proj2 (operations_persist_only_on_commit
                           always_valid always_valid same_definition
                           (DeleteEntity 10 "ghost" "p1" true) r))
             (EntityNotFoundException "ghost" "p1")).
    reflexivity.
Defined.

(** Instance of X9: from a blank registry, a feature view "rides" is
    applied and then an on-demand feature view of that name, which is
    refused. *)
Lemma reachable_states_keep_names_disjoint_witness :
  let r := run_ops always_valid always_valid same_definition
             [ApplyFeatureView 1 (sample_view FeatureView "rides" "a") "p1" true;
              ApplyFeatureView 2 (sample_view OnDemandFeatureView "rides" "b") "p2" true]
             blank_registry in
  ∃ s, cached_registry_proto r = Some s ∧
       on_demand_feature_views s = [] ∧
       variant_names_disjoint s.
Proof.
  intros r. eexists. split; [reflexivity|]. split; [reflexivity|].
  unfold variant_names_disjoint.
  apply (reachable_states_keep_names_disjoint always_valid always_valid same_definition
           blank_registry r).
  - split; intros s'; discriminate.
  - apply reachable_step, reachable_step, reachable_refl.
  - reflexivity.
Defined.

(** Instance of X10: "rides" is an on-demand feature view of "p1"; a
    feature view of that name is applied to "p2". *)
Lemma conflict_exactly_when_name_taken_by_other_class_witness :
  let s := sample_snapshot [] [] [sample_proto "rides" "p1" "a"] [] [] in
  let r := sample_registry s in
  apply_feature_view always_valid same_definition 10
    (sample_view FeatureView "rides" "b") "p2" true r =
    (Raise (ConflictingFeatureViewNames "rides"), r).
Proof.
  intros s r.
  apply (proj1 (conflict_exactly_when_name_taken_by_other_class
                  always_valid same_definition 10 (sample_view FeatureView "rides" "b")
                  "p2" true r s r eq_refl eq_refl
                  ltac:(intros [] [] x y Hx Hy _;
                        first [reflexivity
                              | exfalso; exact (proj1 (elem_of_nil x) Hx)
                              | exfalso; exact (proj1 (elem_of_nil y) Hy)]))).
  exists OnDemandFeatureView, (sample_proto "rides" "p1" "a").
  split; [apply list_elem_of_here|]. split; [reflexivity|discriminate].
Defined.




(** Instance of X14: teardown of a registry with a cached snapshot. *)
Lemma teardown_leaves_the_cache_witness :
  let s := sample_snapshot [sample_proto "customer" "p1" "a"] [] [] [] [] in
  let r := (teardown (sample_registry s)).2 in
  _get_registry_proto 10 true r = (Return s, r) ∧
  _get_registry_proto 10 false r = (Raise FileNotFoundError, count_load r) ∧
  stored (registry_store (commit r).2) = Some s.
Proof.
  intros s r.
  destruct (teardown_leaves_the_cache 10 (sample_registry s) s eq_refl eq_refl)
    as (_ & _ & Hcached & Huncached & Hcommit).
  split; [exact Hcached|]. split; [exact Huncached|exact Hcommit].
Defined.

(** Instance of X15: a custom store type, a type with a wrong suffix and a
    bare class name. *)
Lemma store_class_from_type_splits_at_last_dot_witness :
  get_registry_store_class_from_type "my.pkg.CustomRegistryStore" =
    GetClassFromType "my.pkg" "CustomRegistryStore" ∧
  "my.pkg.CustomRegistryStore" = "my.pkg" +:+ "." +:+ "CustomRegistryStore" ∧
  get_registry_store_class_from_type "my.pkg.CustomStore" = RaiseException ∧
  get_registry_store_class_from_type "CustomRegistryStore" = RaiseValueError.
Proof.
  split; [reflexivity|]. split; [|split].
  - destruct (store_class_from_type_splits_at_last_dot "my.pkg.CustomRegistryStore")
      as (_ & Hsplit & _).
    destruct (Hsplit "my.pkg" "CustomRegistryStore" eq_refl) as (_ & _ & Heq).
    apply Heq. reflexivity.
  - destruct (store_class_from_type_splits_at_last_dot "my.pkg.CustomStore")
      as (Hsuffix & _).
    apply Hsuffix. reflexivity.
  - destruct (store_class_from_type_splits_at_last_dot "CustomRegistryStore")
      as (_ & _ & Hbare).
    apply Hbare; reflexivity.
Defined.

(** Instance of X17: "driver" is applied without commit to a registry with
    TTL 0 and read through the cache much later. *)
Lemma uncommitted_apply_is_seen_by_cached_read_witness :
  let s := sample_snapshot [sample_proto "customer" "p1" "a"] [] [] [] [] in
  let r2 := (apply_entity always_valid 10 (sample_fco "driver" "a") "p1" false
               (sample_registry s)).2 in
  get_entity 100000 "driver" "p1" true r2 = (Return (sample_fco "driver" "a"), r2) ∧
  stored (registry_store r2) = Some s.
Proof.
  intros s.
  apply (uncommitted_apply_is_seen_by_cached_read always_valid 10 100000
           (sample_fco "driver" "a") "p1" (sample_registry s) s (sample_registry s)).
  - reflexivity.
  - reflexivity.
  - reflexivity.
  - vm_compute. lia.
Defined.

